(** * Smart Card Connector: the Emscripten module bridge and the server
      sockets queue

    A shallow embedding of

    - [common/js/src/executable-module/emscripten-module.js]: the classes
      [EmscriptenModuleMessageChannel] (the outgoing-message buffer that is
      flushed once the module object exists) and [EmscriptenModule] (the
      loader that owns the channel);
    - [third_party/pcsc-lite/naclport/server/src/server_sockets_manager.h]:
      the class [PcscLiteServerSocketsManager] (a blocking queue of socket
      descriptors with a shut-down flag).

    JavaScript runs the channel on one thread, but the module object may call
    back into the channel from inside [postMessage]; the embedding keeps that
    reentrancy.  Exceptions do not roll the heap back, so an operation that
    throws still hands over the state it left behind.  The loader is
    suspended at its awaits, where other code may use it; the embedding runs
    a schedule of such tasks there.  The queue is shared by threads under a
    mutex; the embedding takes each critical section as one step of a
    system that keeps track of the waiting threads.

    The first part of the file is the model, one module per class; the
    second part states and proves the properties, in the same order. *)

From stdpp Require Import base numbers list strings.

#[local] Set Warnings "-register-all".
#[local] Open Scope string_scope.
#[local] Open Scope list_scope.

(** ** JavaScript values *)

(** The values that cross the channel.  Numbers are kept to the integers; no
    operation of the channel computes with them. *)
Inductive Value : Type :=
  | VUndefined
  | VNull
  | VBool (b : bool)
  | VNumber (z : Z)
  | VString (s : string)
  | VObject (fields : list (string * Value)).

(** [goog.isObject] of the Closure Library: true of objects, false of
    primitives, [null] and [undefined]. *)
Definition isObject (v : Value) : bool :=
  match v with
  | VObject _ => true
  | _ => false
  end.

(** What a call can throw.

    Modelled from the spec: [GSC.Logging] is not under src/; a failed
    [check], [checkWithLogger] or [fail] is fatal, it reports a diagnostic
    and ends the call it is made in ([CheckFailure]). *)
Inductive Error : Type :=
  | CheckFailure   (* GSC.Logging.check / checkWithLogger / fail *)
  | TypeError      (* a method call on null or undefined *)
  | Rejection.     (* a rejected promise or a throwing foreign call *)

(** How a call ends: it returns, it throws, or it is still running when the
    bound on the model's recursion is reached.  Every case carries the state
    the call has produced so far. *)
Inductive Outcome (S : Type) : Type :=
  | Returned (s : S)
  | Threw (e : Error) (s : S)
  | Diverged (s : S).
Arguments Returned {S} s.
Arguments Threw {S} e s.
Arguments Diverged {S} s.

Definition bind {S : Type} (o : Outcome S) (k : S -> Outcome S) : Outcome S :=
  match o with
  | Returned s => k s
  | Threw e s => Threw e s
  | Diverged s => Diverged s
  end.

Definition stateOf {S : Type} (o : Outcome S) : S :=
  match o with
  | Returned s | Threw _ s | Diverged s => s
  end.

(** ** GSC.TypedMessage *)

Module TypedMessage.

Record t : Type := new { type : string; data : Value }.

(** Modelled from the spec: [GSC.TypedMessage] is not under src/; the
    envelope is the wire record with the two fields [type] and [data]. *)
Definition makeMessage (typedMessage : t) : Value :=
  VObject [("type", VString (type typedMessage)); ("data", data typedMessage)].

(** Modelled from the spec: [GSC.TypedMessage.parseTypedMessage] is not under
    src/; a raw message decodes when it is the wire record of an envelope.
    The channel itself is verified for an arbitrary decoder; this one
    instantiates it. *)
Definition parseTypedMessage (message : Value) : option t :=
  match message with
  | VObject [("type", VString ty); ("data", payload)] =>
      if isObject payload then Some (new ty payload) else None
  | _ => None
  end.

End TypedMessage.

(** ** EmscriptenModuleMessageChannel *)

Module EmscriptenModuleMessageChannel.

(** What the module object does, synchronously, with the channel while its
    [postMessage] runs. *)
Inductive Call : Type :=
  | CallSend (serviceName : string) (payload : Value)
  | CallDispose.

(** The [GoogleSmartCardModule] instance, as far as the channel uses it: the
    one method [postMessage].  Its reaction may depend on everything it has
    been posted before. *)
Record GoogleSmartCardModule : Type :=
  { postMessage : list Value -> Value -> list Call }.

(** A callback registered for a service name. *)
Definition Subscriber : Type := nat.

(** The fields of the channel object.  [googleSmartCardModule_] is [None]
    both when the field is [null] (constructor) and when it was deleted
    (dispose): the code only tests it for truthiness and calls a method on
    it. *)
Record Channel : Type := mkChannel {
  disposed_ : bool;
  services_ : list (string * Subscriber);
  pendingOutgoingMessages_ : list Value;
  googleSmartCardModule_ : option GoogleSmartCardModule
}.

(** The channel together with what its surroundings have seen of it: the
    arguments of the [postMessage] calls on the module, oldest first, and
    the payloads handed to subscribers, oldest first. *)
Record World : Type := mkWorld {
  chan : Channel;
  posted : list Value;
  delivered : list (Subscriber * Value)
}.

Definition withChan (f : Channel -> Channel) (w : World) : World :=
  mkWorld (f (chan w)) (posted w) (delivered w).

(** [new EmscriptenModuleMessageChannel]. *)
Definition constructor : World :=
  mkWorld (mkChannel false [] [] None) [] [].

(** Truthiness of a field that holds an object, [null] or nothing. *)
Definition truthy {A : Type} (field : option A) : bool :=
  match field with
  | Some _ => true
  | None => false
  end.

(** Modelled from the spec: [goog.Disposable] is not under src/;
    [isDisposed] reads the disposed flag. *)
Definition isDisposed (w : World) : bool := disposed_ (chan w).

(** [this.pendingOutgoingMessages_.push(message)]. *)
Definition push (message : Value) (c : Channel) : Channel :=
  mkChannel (disposed_ c) (services_ c)
            (pendingOutgoingMessages_ c ++ [message])
            (googleSmartCardModule_ c).

(** Modelled from the spec: [goog.messaging.AbstractChannel] is not under
    src/; its [registerService] adds a subscriber for a message type, and
    subscribers are kept in registration order. *)
Definition registerService (serviceName : string) (callback : Subscriber)
    (w : World) : World :=
  withChan (fun c => mkChannel (disposed_ c)
                               (services_ c ++ [(serviceName, callback)])
                               (pendingOutgoingMessages_ c)
                               (googleSmartCardModule_ c)) w.

(** Modelled from the spec: the [disposeInternal] of
    [goog.messaging.AbstractChannel] releases all subscriber
    registrations. *)
Definition AbstractChannel_disposeInternal (c : Channel) : Channel :=
  mkChannel (disposed_ c) [] (pendingOutgoingMessages_ c)
            (googleSmartCardModule_ c).

(** [delete this.googleSmartCardModule_]. *)
Definition deleteModule (c : Channel) : Channel :=
  mkChannel (disposed_ c) (services_ c) (pendingOutgoingMessages_ c) None.

(** [EmscriptenModuleMessageChannel.prototype.disposeInternal]. *)
Definition disposeInternal (w : World) : World :=
  withChan AbstractChannel_disposeInternal (withChan deleteModule w).

(** Modelled from the spec: [goog.Disposable] is not under src/; [dispose]
    sets the disposed flag and runs [disposeInternal], the first time it is
    called, and does nothing afterwards. *)
Definition dispose (w : World) : World :=
  if isDisposed w then w
  else disposeInternal
         (withChan (fun c => mkChannel true (services_ c)
                                       (pendingOutgoingMessages_ c)
                                       (googleSmartCardModule_ c)) w).

Section Reentrant.

(** The body of [send] needs [sendNow_], which runs the module's
    reaction, which may [send] again. *)
Variable sendNow_ : Value -> World -> Outcome World.

(** [EmscriptenModuleMessageChannel.prototype.send]. *)
Definition send (serviceName : string) (payload : Value) (w : World)
    : Outcome World :=
  if negb (isObject payload) then Threw CheckFailure w
  else
    let typedMessage := TypedMessage.new serviceName payload in
    let message := TypedMessage.makeMessage typedMessage in
    if isDisposed w then Returned w
    else if negb (truthy (googleSmartCardModule_ (chan w)))
            || negb (Nat.eqb (length (pendingOutgoingMessages_ (chan w))) 0)
    then Returned (withChan (push message) w)
    else sendNow_ message w.

Definition call (c : Call) (w : World) : Outcome World :=
  match c with
  | CallSend serviceName payload => send serviceName payload w
  | CallDispose => Returned (dispose w)
  end.

Fixpoint calls (cs : list Call) (w : World) : Outcome World :=
  match cs with
  | [] => Returned w
  | c :: rest => bind (call c w) (calls rest)
  end.

End Reentrant.

(** [EmscriptenModuleMessageChannel.prototype.sendNow_]: the method call on
    the module object, a type error when the field holds no object.  The
    module reacts before [postMessage] returns.  [depth] bounds how deeply
    [postMessage] calls may nest (a reaction that sends directly, whose
    delivery reacts again). *)
Fixpoint sendNow_ (depth : nat) (message : Value) (w : World)
    : Outcome World :=
  match googleSmartCardModule_ (chan w) with
  | None => Threw TypeError w
  | Some module =>
      calls (match depth with
             | 0 => fun _ w' => Diverged w'
             | S depth' => sendNow_ depth'
             end)
            (postMessage module (posted w) message)
            (mkWorld (chan w) (posted w ++ [message]) (delivered w))
  end.

(** [this.googleSmartCardModule_ = googleSmartCardModule]. *)
Definition setModule (googleSmartCardModule : GoogleSmartCardModule)
    (c : Channel) : Channel :=
  mkChannel (disposed_ c) (services_ c) (pendingOutgoingMessages_ c)
            (Some googleSmartCardModule).

(** [this.pendingOutgoingMessages_ = []]. *)
Definition clearPending (c : Channel) : Channel :=
  mkChannel (disposed_ c) (services_ c) [] (googleSmartCardModule_ c).

(** The for-of loop of [onModuleCreated].  The array iterator reads the
    length of the array at every step, so it visits elements pushed while
    it runs; [i] is its index and [steps] bounds the iterations.  Nothing
    reachable from inside the loop assigns [pendingOutgoingMessages_], so
    the array being iterated is the one the channel holds. *)
Fixpoint drain (steps depth : nat) (i : nat) (w : World) : Outcome World :=
  match steps with
  | 0 => Diverged w
  | S steps' =>
      match pendingOutgoingMessages_ (chan w) !! i with
      | None => Returned w
      | Some message =>
          bind (sendNow_ depth message w) (drain steps' depth (S i))
      end
  end.

(** [EmscriptenModuleMessageChannel.prototype.onModuleCreated]. *)
Definition onModuleCreated (steps depth : nat)
    (googleSmartCardModule : GoogleSmartCardModule) (w : World)
    : Outcome World :=
  bind (drain steps depth 0 (withChan (setModule googleSmartCardModule) w))
       (fun w' => Returned (withChan clearPending w')).

(** Modelled from the spec: [deliver] of [goog.messaging.AbstractChannel] is
    not under src/; it routes by type to all subscribers registered for
    that type, in registration order, and drops unmatched types. *)
Fixpoint route (services : list (string * Subscriber)) (serviceName : string)
    (payload : Value) : list (Subscriber * Value) :=
  match services with
  | [] => []
  | (name, callback) :: rest =>
      if String.eqb name serviceName
      then (callback, payload) :: route rest serviceName payload
      else route rest serviceName payload
  end.

(** Modelled from the spec: [deliver] of [goog.messaging.AbstractChannel],
    see [route]. *)
Definition deliver (serviceName : string) (payload : Value) (w : World)
    : Outcome World :=
  Returned (mkWorld (chan w) (posted w)
                    (delivered w
                     ++ route (services_ (chan w)) serviceName payload)).

Section Decoder.

(** [GSC.TypedMessage.parseTypedMessage], which is not under src/. *)
Variable parseTypedMessage : Value -> option TypedMessage.t.

(** [EmscriptenModuleMessageChannel.prototype.onMessageFromModule].
    [GSC.Logging.fail] throws, so [deliver] is not reached after it. *)
Definition onMessageFromModule (message : Value) (w : World)
    : Outcome World :=
  match parseTypedMessage message with
  | None => Threw CheckFailure w
  | Some typedMessage =>
      deliver (TypedMessage.type typedMessage)
              (TypedMessage.data typedMessage) w
  end.

(** The calls the surroundings make on the channel, each from the top of
    the stack. *)
Inductive Op : Type :=
  | OpSend (serviceName : string) (payload : Value)
  | OpDispose
  | OpOnModuleCreated (googleSmartCardModule : GoogleSmartCardModule)
  | OpOnMessageFromModule (message : Value).

Definition isOnModuleCreated (op : Op) : bool :=
  match op with
  | OpOnModuleCreated _ => true
  | _ => false
  end.

Definition runOp (steps depth : nat) (op : Op) (w : World) : Outcome World :=
  match op with
  | OpSend serviceName payload => send (sendNow_ depth) serviceName payload w
  | OpDispose => Returned (dispose w)
  | OpOnModuleCreated m => onModuleCreated steps depth m w
  | OpOnMessageFromModule message => onMessageFromModule message w
  end.

(** A sequence of such calls.  An exception ends the call that threw, not
    the program: the next caller finds the state the throw left.  A call
    that does not return keeps the thread, so nothing runs after it. *)
Fixpoint runOps (steps depth : nat) (ops : list Op) (w : World) : World :=
  match ops with
  | [] => w
  | op :: rest =>
      match runOp steps depth op w with
      | Returned w' | Threw _ w' => runOps steps depth rest w'
      | Diverged w' => w'
      end
  end.

End Decoder.

(** *** Vocabulary of the statements *)

(** The wire message [send] builds from its two arguments. *)
Definition envelope (serviceName : string) (payload : Value) : Value :=
  TypedMessage.makeMessage (TypedMessage.new serviceName payload).

(** A reaction step that is a [send] of an object payload. *)
Definition objectSend (c : Call) : bool :=
  match c with
  | CallSend _ payload => isObject payload
  | CallDispose => false
  end.

(** A module that, inside [postMessage], does nothing with the channel but
    well-formed [send]s. *)
Definition sendsOnly (m : GoogleSmartCardModule) : Prop :=
  forall history message,
    forallb objectSend (postMessage m history message) = true.

(** A module that never calls back from inside [postMessage]. *)
Definition quiet (m : GoogleSmartCardModule) : Prop :=
  forall history message, postMessage m history message = [].

(** The wire messages of the [send]s of a reaction, in order. *)
Definition sentBy (cs : list Call) : list Value :=
  omap (fun c => match c with
                 | CallSend serviceName payload =>
                   Some (envelope serviceName payload)
                 | CallDispose => None
                 end) cs.

(** The channel with more messages at the end of its buffer. *)
Definition buffering (messages : list Value) (w : World) : World :=
  withChan (fun c => mkChannel (disposed_ c) (services_ c)
                               (pendingOutgoingMessages_ c ++ messages)
                               (googleSmartCardModule_ c)) w.

(** The subscribers registered for a type, in registration order. *)
Definition subscribersFor (serviceName : string)
    (services : list (string * Subscriber)) : list Subscriber :=
  map snd (filter (fun r => r.1 = serviceName) services).

(** Nothing a channel has shown to its surroundings is taken back, and a
    disposed channel stays disposed. *)
Definition advances (w w' : World) : Prop :=
  posted w `prefix_of` posted w' /\
  delivered w `prefix_of` delivered w' /\
  (isDisposed w = true -> isDisposed w' = true).

(** *** Sample modules and payloads *)

Definition emptyObject : Value := VObject [].

(** A module that never calls back. *)
Definition silentModule : GoogleSmartCardModule :=
  {| postMessage := fun _ _ => [] |}.

(** A module that answers each of the first two messages it is posted with
    a [send] of its own, from inside [postMessage]. *)
Definition replyingModule : GoogleSmartCardModule :=
  {| postMessage := fun history _ =>
       if Nat.ltb (length history) 2
       then [CallSend "reply" emptyObject]
       else [] |}.

(** Two messages as [send] builds them. *)
Definition backlog : list Value :=
  [envelope "ping" emptyObject; envelope "pong" emptyObject].

(** A channel with three subscribers, two of them for the type "b". *)
Definition subscribedChannel : World :=
  registerService "b" 2 (registerService "a" 1
    (registerService "b" 0 constructor)).

(** A module that disposes the channel as soon as it is posted
    something. *)
Definition disposingModule : GoogleSmartCardModule :=
  {| postMessage := fun _ _ => [CallDispose] |}.


(** The [send] calls for a list of service names and payloads. *)
Definition sendOps (sends : list (string * Value)) : list Op :=
  map (fun s => OpSend s.1 s.2) sends.

(** The wire messages of these calls. *)
Definition envelopes (sends : list (string * Value)) : list Value :=
  map (fun s => envelope s.1 s.2) sends.

(** A channel on which [onModuleCreated] has done its work: not disposed,
    holding a module, with nothing buffered. *)
Definition ready (m : GoogleSmartCardModule) (w : World) : Prop :=
  isDisposed w = false
  /\ googleSmartCardModule_ (chan w) = Some m
  /\ pendingOutgoingMessages_ (chan w) = [].

(** What a delivery routine does on a ready channel, as far as [send] and the
    reactions that call it rely on it: it does not throw, it leaves the
    channel as it is, and it takes back nothing that was posted or
    delivered. *)
Definition keepsReady (m : GoogleSmartCardModule)
    (sendNow : Value -> World -> Outcome World) : Prop :=
  forall message w,
    ready m w ->
    (forall e w', sendNow message w <> Threw e w')
    /\ chan (stateOf (sendNow message w)) = chan w
    /\ posted w `prefix_of` posted (stateOf (sendNow message w))
    /\ delivered (stateOf (sendNow message w)) = delivered w.

(** A module that sends a payload that is not an object from inside
    [postMessage]. *)
Definition rudeModule : GoogleSmartCardModule :=
  {| postMessage := fun _ _ => [CallSend "reply" (VString "text")] |}.

(** A module that sends once and then disposes the channel, from inside
    [postMessage]. *)
Definition partingModule : GoogleSmartCardModule :=
  {| postMessage := fun _ _ =>
       [CallSend "bye" emptyObject; CallDispose;
        CallSend "late" emptyObject] |}.

End EmscriptenModuleMessageChannel.

(** ** EmscriptenModule *)

Module EmscriptenModule.

(** How an awaited promise, or a call into foreign code, ends. *)
Inductive Async (A : Type) : Type :=
  | Resolved (a : A)
  | Rejected.
Arguments Resolved {A} a.
Arguments Rejected {A}.

(** The Emscripten API's Module object, as far as [load_] reads it: the
    entry [GoogleSmartCardModule], absent or a class, and what [new] on
    that class gives. *)
Record EmscriptenApiModule : Type :=
  { GoogleSmartCardModule :
      option (Async EmscriptenModuleMessageChannel.GoogleSmartCardModule) }.

(** What [load_] finds in the page: how [goog.net.jsloader.safeLoad] ends,
    and the global [loadEmscriptenModule_<moduleName>], absent or a function
    with the promise it returns. *)
Record Host : Type := {
  safeLoad : Async unit;
  factoryFunction : option (Async EmscriptenApiModule)
}.

(** The steps of [load_] that reach outside the object. *)
Inductive LoadStep : Type :=
  | LoadSupportCode
  | RunFactory
  | ConstructModule
  | WireChannel.

(** The fields of the [EmscriptenModule] object, and the record of the steps
    [load_] has started, oldest first. *)
Record t : Type := mk {
  disposed_ : bool;
  googleSmartCardModule_ :
    option EmscriptenModuleMessageChannel.GoogleSmartCardModule;
  messageChannel : EmscriptenModuleMessageChannel.World;
  started : list LoadStep
}.

(** [new GSC.EmscriptenModule(moduleName)]. *)
Definition constructor : t :=
  mk false None EmscriptenModuleMessageChannel.constructor [].

Definition start (step : LoadStep) (em : t) : t :=
  mk (disposed_ em) (googleSmartCardModule_ em) (messageChannel em)
     (started em ++ [step]).

(** [EmscriptenModule.prototype.disposeInternal]. *)
Definition disposeInternal (em : t) : t :=
  mk (disposed_ em) None
     (EmscriptenModuleMessageChannel.dispose (messageChannel em))
     (started em).

(** Modelled from the spec: [goog.Disposable] is not under src/; [dispose]
    sets the disposed flag and runs [disposeInternal], the first time it is
    called. *)
Definition dispose (em : t) : t :=
  if disposed_ em then em
  else disposeInternal
         (mk true (googleSmartCardModule_ em) (messageChannel em) (started em)).

(** What other code does with the loader while [load_] is suspended at an
    [await]: a [send] on its channel, or [dispose]. *)
Inductive Task : Type :=
  | TaskSend (serviceName : string) (payload : Value)
  | TaskDispose.

(** The tasks that run during the two awaits of [load_]. *)
Record Schedule : Type := {
  whileLoadingSupportCode : list Task;
  whileRunningFactory : list Task
}.

Definition withChannel (w : EmscriptenModuleMessageChannel.World) (em : t)
    : t :=
  mk (disposed_ em) (googleSmartCardModule_ em) w (started em).

(** One task.  An exception ends the task, not [load_]; a task that does not
    return keeps the thread. *)
Definition runTask (depth : nat) (task : Task) (em : t) : Outcome t :=
  match task with
  | TaskSend serviceName payload =>
      match EmscriptenModuleMessageChannel.send
              (EmscriptenModuleMessageChannel.sendNow_ depth)
              serviceName payload (messageChannel em) with
      | Returned w | Threw _ w => Returned (withChannel w em)
      | Diverged w => Diverged (withChannel w em)
      end
  | TaskDispose => Returned (dispose em)
  end.

Fixpoint runTasks (depth : nat) (tasks : list Task) (em : t) : Outcome t :=
  match tasks with
  | [] => Returned em
  | task :: rest => bind (runTask depth task em) (runTasks depth rest)
  end.

(** [EmscriptenModule.prototype.load_].  [GSC.Logging.checkWithLogger]
    throws when its condition is falsy.  Each [await] lets the tasks of the
    schedule run before [load_] goes on. *)
Definition load_ (steps depth : nat) (host : Host) (schedule : Schedule)
    (em : t) : Outcome t :=
  bind (runTasks depth (whileLoadingSupportCode schedule)
                 (start LoadSupportCode em)) (fun em =>
  match safeLoad host with
  | Rejected => Threw Rejection em
  | Resolved _ =>
  match factoryFunction host with
  | None => Threw CheckFailure em
  | Some factory =>
  bind (runTasks depth (whileRunningFactory schedule)
                 (start RunFactory em)) (fun em =>
  match factory with
  | Rejected => Threw Rejection em
  | Resolved emscriptenApiModule =>
  match GoogleSmartCardModule emscriptenApiModule with
  | None => Threw CheckFailure em
  | Some class =>
  let em := start ConstructModule em in
  match class with
  | Rejected => Threw Rejection em
  | Resolved module =>
  let em := start WireChannel
              (mk (disposed_ em) (Some module) (messageChannel em)
                  (started em)) in
  match EmscriptenModuleMessageChannel.onModuleCreated
          steps depth module (messageChannel em) with
  | Returned w => Returned (withChannel w em)
  | Threw e w => Threw e (withChannel w em)
  | Diverged w => Diverged (withChannel w em)
  end end end end) end end).

(** [EmscriptenModule.prototype.startLoading]: the rejection handler logs a
    warning and disposes the object. *)
Definition startLoading (steps depth : nat) (host : Host)
    (schedule : Schedule) (em : t) : Outcome t :=
  match load_ steps depth host schedule em with
  | Threw _ em' => Returned (dispose em')
  | done => done
  end.

(** *** Vocabulary of the statements *)

(** Disposing the loader disposes its channel; true of a new object and
    kept by every operation. *)
Definition consistent (em : t) : Prop :=
  disposed_ em = true ->
  EmscriptenModuleMessageChannel.isDisposed (messageChannel em) = true.

(** The page makes one of the first three steps of [load_] fail: the
    support code does not load, the factory is missing or rejects, the class
    is missing or its constructor throws. *)
Definition hostFails (host : Host) : bool :=
  match safeLoad host with
  | Rejected => true
  | Resolved _ =>
      match factoryFunction host with
      | None | Some Rejected => true
      | Some (Resolved emscriptenApiModule) =>
          match GoogleSmartCardModule emscriptenApiModule with
          | None | Some Rejected => true
          | Some (Resolved _) => false
          end
      end
  end.

Definition loadSequence : list LoadStep :=
  [LoadSupportCode; RunFactory; ConstructModule; WireChannel].

(** The loader has only moved forward: once disposed it stays disposed,
    consistency is kept, the record of started steps is the same, and the
    channel has taken nothing back. *)
Definition follows (em em' : t) : Prop :=
  (disposed_ em = true -> disposed_ em' = true)
  /\ (consistent em -> consistent em')
  /\ started em' = started em
  /\ EmscriptenModuleMessageChannel.advances
       (messageChannel em) (messageChannel em').

(** *** Sample pages and loaders *)

(** A page whose support code loads, but which has no factory function. *)
Definition pageWithoutFactory : Host :=
  {| safeLoad := Resolved (); factoryFunction := None |}.

(** A page on which every step works, with a module that never calls
    back. *)
Definition workingPage : Host :=
  {| safeLoad := Resolved ();
     factoryFunction :=
       Some (Resolved
               {| GoogleSmartCardModule :=
                    Some (Resolved EmscriptenModuleMessageChannel.silentModule)
               |}) |}.

(** Nothing else runs while [load_] is suspended. *)
Definition undisturbed : Schedule :=
  {| whileLoadingSupportCode := []; whileRunningFactory := [] |}.

(** Two messages are sent while the support code loads, and the loader is
    disposed while the factory runs. *)
Definition disposedMeanwhile : Schedule :=
  {| whileLoadingSupportCode :=
       [TaskSend "ping" EmscriptenModuleMessageChannel.emptyObject;
        TaskSend "pong" EmscriptenModuleMessageChannel.emptyObject];
     whileRunningFactory := [TaskDispose] |}.

(** A new loader on whose channel two messages were sent already. *)
Definition loaderWithBacklog : t :=
  mk false None
     (EmscriptenModuleMessageChannel.buffering
        EmscriptenModuleMessageChannel.backlog
        EmscriptenModuleMessageChannel.constructor)
     [].

(** The tasks that send a list of service names and payloads on the
    channel of the loader. *)
Definition sendTasks (sends : list (string * Value)) : list Task :=
  map (fun s => TaskSend s.1 s.2) sends.

(** How many steps of the load sequence [load_] starts on a page on which
    one of the first three fails. *)
Definition failedAt (host : Host) : nat :=
  match safeLoad host with
  | Rejected => 1
  | Resolved _ =>
      match factoryFunction host with
      | None => 1
      | Some Rejected => 2
      | Some (Resolved emscriptenApiModule) =>
          match GoogleSmartCardModule emscriptenApiModule with
          | None => 2
          | Some _ => 3
          end
      end
  end.

(** What [load_] throws on such a page: the check failure of
    [checkWithLogger] for a missing function or class, the rejection
    otherwise. *)
Definition failureOf (host : Host) : Error :=
  match safeLoad host with
  | Rejected => Rejection
  | Resolved _ =>
      match factoryFunction host with
      | None => CheckFailure
      | Some Rejected => Rejection
      | Some (Resolved emscriptenApiModule) =>
          match GoogleSmartCardModule emscriptenApiModule with
          | None => CheckFailure
          | Some _ => Rejection
          end
      end
  end.

(** A page whose factory resolves to an API object without the class. *)
Definition pageWithoutClass : Host :=
  {| safeLoad := Resolved ();
     factoryFunction := Some (Resolved {| GoogleSmartCardModule := None |}) |}.

(** Two messages are sent while the support code loads and one while the
    factory runs. *)
Definition sendingMeanwhile : Schedule :=
  {| whileLoadingSupportCode :=
       sendTasks [("ping", EmscriptenModuleMessageChannel.emptyObject);
                  ("pong", EmscriptenModuleMessageChannel.emptyObject)];
     whileRunningFactory :=
       sendTasks [("late", EmscriptenModuleMessageChannel.emptyObject)] |}.

End EmscriptenModule.

(** ** PcscLiteServerSocketsManager *)

Module PcscLiteServerSocketsManager.

(** The private state of the class; [mutex_] and [condition_] show up as the
    atomicity of the operations and as the sets of waiting threads below.
    Descriptors are [int]s; the queue carries them unchanged and computes
    nothing with them. *)
Record t : Type := mk {
  shutting_down_ : bool;
  server_socket_file_descriptors_queue_ : list Z
}.

Definition constructor : t := mk false [].

(** Modelled from the spec: the bodies of the member functions
    (server_sockets_manager.cc) are not under src/.  [Push] appends the
    descriptor to the tail. *)
Definition Push (server_socket_file_descriptor : Z) (s : t) : t :=
  mk (shutting_down_ s)
     (server_socket_file_descriptors_queue_ s
      ++ [server_socket_file_descriptor]).

(** Modelled from the spec: [ShutDown] sets the flag; the queue is left as
    it is. *)
Definition ShutDown (s : t) : t :=
  mk true (server_socket_file_descriptors_queue_ s).

(** What a thread inside [WaitAndPop] does each time it holds the mutex. *)
Inductive Attempt : Type :=
  | Returns (result : option Z) (s : t)
  | Blocks.

(** Modelled from the spec: [WaitAndPop], on entry and again on every
    wake-up, looks at the flag first and returns the null optional when it
    is set; otherwise it pops the head of a non-empty queue; otherwise it
    waits. *)
Definition WaitAndPop (s : t) : Attempt :=
  if shutting_down_ s then Returns None s
  else match server_socket_file_descriptors_queue_ s with
       | [] => Blocks
       | fd :: rest => Returns (Some fd) (mk (shutting_down_ s) rest)
       end.

Definition Thread : Type := nat.

(** The manager shared by threads: the threads waiting on [condition_]
    ([blocked]), those notified and waiting for the mutex ([woken]), and
    every value a [WaitAndPop] call has returned, oldest first. *)
Record System : Type := mkSystem {
  manager : t;
  blocked : list Thread;
  woken : list Thread;
  returns : list (Thread * option Z)
}.

Definition initial : System := mkSystem constructor [] [] [].

(** What can happen next; each event is one critical section. *)
Inductive Event : Type :=
  | EvPush (fd : Z)
  | EvShutDown
  | EvWaitAndPop (th : Thread)    (* a thread enters WaitAndPop *)
  | EvResume (th : Thread)        (* a notified thread gets the mutex back *)
  | EvSpuriousWake (th : Thread). (* condition_ wakes a thread unasked *)

Definition inside (th : Thread) (sys : System) : bool :=
  bool_decide (th ∈ blocked sys ++ woken sys).

Definition remove (th : Thread) (ths : list Thread) : list Thread :=
  filter (λ x, x ≠ th) ths.

(** A thread that holds the mutex inside [WaitAndPop]. *)
Definition attempt (th : Thread) (sys : System) : System :=
  match WaitAndPop (manager sys) with
  | Returns result s =>
      mkSystem s (blocked sys) (woken sys) (returns sys ++ [(th, result)])
  | Blocks =>
      mkSystem (manager sys) (blocked sys ++ [th]) (woken sys) (returns sys)
  end.

(** Modelled from the spec: one event.  [Push] wakes one waiting thread if
    there is one, [ShutDown] wakes them all; a thread that was woken looks
    at the flag and the queue again when it gets the mutex.  Which waiting
    thread [Push] wakes is not specified; the oldest is taken here, and a
    spurious wake-up can make it any other. *)
Definition step (ev : Event) (sys : System) : System :=
  match ev with
  | EvPush fd =>
      (* push, then notify_one *)
      match blocked sys with
      | [] => mkSystem (Push fd (manager sys)) [] (woken sys) (returns sys)
      | th :: rest =>
          mkSystem (Push fd (manager sys)) rest (woken sys ++ [th])
                   (returns sys)
      end
  | EvShutDown =>
      (* set the flag, then notify_all *)
      mkSystem (ShutDown (manager sys)) [] (woken sys ++ blocked sys)
               (returns sys)
  | EvWaitAndPop th =>
      if inside th sys then sys else attempt th sys
  | EvResume th =>
      if bool_decide (th ∈ woken sys)
      then attempt th (mkSystem (manager sys) (blocked sys)
                                (remove th (woken sys)) (returns sys))
      else sys
  | EvSpuriousWake th =>
      if bool_decide (th ∈ blocked sys)
      then mkSystem (manager sys) (remove th (blocked sys))
                    (woken sys ++ [th]) (returns sys)
      else sys
  end.

Fixpoint run (evs : list Event) (sys : System) : System :=
  match evs with
  | [] => sys
  | ev :: rest => run rest (step ev sys)
  end.

(** The descriptors pushed by a schedule, in push order. *)
Fixpoint pushed (evs : list Event) : list Z :=
  match evs with
  | [] => []
  | EvPush fd :: rest => fd :: pushed rest
  | _ :: rest => pushed rest
  end.

(** What the calls of one thread have returned, in order. *)
Definition observedBy (th : Thread) (sys : System) : list (option Z) :=
  map snd (filter (λ r, r.1 = th) (returns sys)).

Definition isShutDown (ev : Event) : bool :=
  match ev with EvShutDown => true | _ => false end.

(** The thread an event belongs to, for the events of consumers. *)
Definition consumerOf (ev : Event) : option Thread :=
  match ev with
  | EvWaitAndPop th | EvResume th | EvSpuriousWake th => Some th
  | _ => None
  end.

End PcscLiteServerSocketsManager.

(** * Properties of the message channel *)

Module EmscriptenModuleMessageChannelFacts.

Import EmscriptenModuleMessageChannel.

(** ** What [send] does, case by case *)

Section Send.

Variable sendNow : Value -> World -> Outcome World.

Lemma send_non_object serviceName payload w :
  isObject payload = false ->
  send sendNow serviceName payload w = Threw CheckFailure w.
Proof. intros Hobj. unfold send. now rewrite Hobj. Qed.

Lemma send_disposed serviceName payload w :
  isObject payload = true ->
  isDisposed w = true ->
  send sendNow serviceName payload w = Returned w.
Proof. intros Hobj Hdisp. unfold send. now rewrite Hobj, Hdisp. Qed.

Lemma send_buffers serviceName payload w :
  isObject payload = true ->
  isDisposed w = false ->
  googleSmartCardModule_ (chan w) = None
    \/ pendingOutgoingMessages_ (chan w) <> [] ->
  send sendNow serviceName payload w
  = Returned (buffering [envelope serviceName payload] w).
Proof.
  intros Hobj Hdisp Hgate. unfold send. rewrite Hobj, Hdisp. simpl.
  destruct Hgate as [Hnone | Hpending].
  - now rewrite Hnone.
  - destruct (pendingOutgoingMessages_ (chan w)); [congruence |].
    simpl. now rewrite orb_true_r.
Qed.

Lemma send_direct serviceName payload w m :
  isObject payload = true ->
  isDisposed w = false ->
  googleSmartCardModule_ (chan w) = Some m ->
  pendingOutgoingMessages_ (chan w) = [] ->
  send sendNow serviceName payload w
  = sendNow (envelope serviceName payload) w.
Proof.
  intros Hobj Hdisp Hm Hpending. unfold send.
  now rewrite Hobj, Hdisp, Hm, Hpending.
Qed.

End Send.

(** ** What [dispose] leaves *)

Lemma dispose_isDisposed w : isDisposed (dispose w) = true.
Proof. unfold dispose. destruct (isDisposed w) eqn:E; [exact E | reflexivity]. Qed.

Lemma dispose_posted w : posted (dispose w) = posted w.
Proof. unfold dispose. now destruct (isDisposed w). Qed.

Lemma dispose_delivered w : delivered (dispose w) = delivered w.
Proof. unfold dispose. now destruct (isDisposed w). Qed.

Lemma dispose_pending w :
  pendingOutgoingMessages_ (chan (dispose w))
  = pendingOutgoingMessages_ (chan w).
Proof. unfold dispose. now destruct (isDisposed w). Qed.

Lemma dispose_fresh w :
  isDisposed w = false ->
  googleSmartCardModule_ (chan (dispose w)) = None
  /\ services_ (chan (dispose w)) = [].
Proof. intros E. unfold dispose. now rewrite E. Qed.

Lemma dispose_again w : isDisposed w = true -> dispose w = w.
Proof. intros E. unfold dispose. now rewrite E. Qed.

(** ** Nothing observed is taken back *)

#[local] Instance advances_refl : Reflexive advances.
Proof. intros w. unfold advances. auto. Qed.

#[local] Instance advances_trans : Transitive advances.
Proof.
  intros w1 w2 w3 (Hp & Hd & Hx) (Hp' & Hd' & Hx').
  unfold advances. split; [| split].
  - now transitivity (posted w2).
  - now transitivity (delivered w2).
  - auto.
Qed.

Lemma advances_bind (o : Outcome World) k w :
  advances w (stateOf o) ->
  (forall w', advances w' (stateOf (k w'))) ->
  advances w (stateOf (bind o k)).
Proof.
  intros Ho Hk. destruct o as [w' | e w' | w']; simpl in *; auto.
  now transitivity w'.
Qed.

Lemma advances_buffering messages w : advances w (buffering messages w).
Proof. unfold advances, buffering, withChan, isDisposed. simpl. auto. Qed.

Lemma advances_dispose w : advances w (dispose w).
Proof.
  unfold advances. rewrite dispose_posted, dispose_delivered.
  repeat split; auto. intros _. apply dispose_isDisposed.
Qed.

Section Monotone.

Variable sendNow : Value -> World -> Outcome World.
Hypothesis sendNow_monotone :
  forall message w, advances w (stateOf (sendNow message w)).

Lemma send_advances serviceName payload w :
  advances w (stateOf (send sendNow serviceName payload w)).
Proof.
  unfold send.
  repeat match goal with
         | |- context [if ?b then _ else _] => destruct b
         end; simpl; try reflexivity; auto.
  apply (advances_buffering [_]).
Qed.

Lemma call_advances c w : advances w (stateOf (call sendNow c w)).
Proof.
  destruct c; simpl; [apply send_advances | apply advances_dispose].
Qed.

Lemma calls_advances cs w : advances w (stateOf (calls sendNow cs w)).
Proof.
  revert w. induction cs as [| c cs IH]; intros w; simpl; [reflexivity |].
  apply advances_bind; [apply call_advances | apply IH].
Qed.

End Monotone.

Lemma sendNow_advances depth message w :
  advances w (stateOf (sendNow_ depth message w)).
Proof.
  revert message w. induction depth as [| depth IH]; intros message w; simpl;
    (destruct (googleSmartCardModule_ (chan w)); simpl; [| reflexivity]).
  - etransitivity; [| apply calls_advances; intros; simpl; reflexivity].
    unfold advances, isDisposed; simpl. repeat split; auto.
    now apply prefix_app_r.
  - etransitivity; [| apply calls_advances; exact IH].
    unfold advances, isDisposed; simpl. repeat split; auto.
    now apply prefix_app_r.
Qed.

Lemma drain_advances steps depth i w :
  advances w (stateOf (drain steps depth i w)).
Proof.
  revert i w. induction steps as [| steps IH]; intros i w; simpl; [reflexivity |].
  destruct (pendingOutgoingMessages_ (chan w) !! i); simpl; [| reflexivity].
  apply advances_bind; [apply sendNow_advances | intros; apply IH].
Qed.

Lemma onModuleCreated_advances steps depth m w :
  advances w (stateOf (onModuleCreated steps depth m w)).
Proof.
  unfold onModuleCreated.
  apply advances_bind.
  - etransitivity; [| apply drain_advances].
    unfold advances, withChan, isDisposed; simpl. auto.
  - intros w'. simpl. unfold advances, withChan, isDisposed; simpl. auto.
Qed.

Lemma deliver_advances serviceName payload w :
  advances w (stateOf (deliver serviceName payload w)).
Proof.
  unfold deliver, advances, isDisposed; simpl. repeat split; auto.
  now apply prefix_app_r.
Qed.

Lemma runOp_advances parse steps depth op w :
  advances w (stateOf (runOp parse steps depth op w)).
Proof.
  destruct op; simpl.
  - apply send_advances, sendNow_advances.
  - apply advances_dispose.
  - apply onModuleCreated_advances.
  - unfold onMessageFromModule. destruct (parse message); simpl;
      [apply deliver_advances | reflexivity].
Qed.

Lemma runOps_advances parse steps depth ops w :
  advances w (runOps parse steps depth ops w).
Proof.
  revert w. induction ops as [| op ops IH]; intros w; simpl; [reflexivity |].
  pose proof (runOp_advances parse steps depth op w) as H.
  destruct (runOp parse steps depth op w); simpl in H; auto;
    etransitivity; eauto.
Qed.


(** ** A module that only sends, while the buffer is not empty *)

Lemma buffering_nil w : buffering [] w = w.
Proof.
  destruct w as [[d s p m] po de]. unfold buffering, withChan. simpl.
  now rewrite app_nil_r.
Qed.

Lemma buffering_app a b w : buffering b (buffering a w) = buffering (a ++ b) w.
Proof. unfold buffering, withChan. simpl. now rewrite app_assoc. Qed.

Lemma calls_buffered sendNow cs w :
  forallb objectSend cs = true ->
  isDisposed w = false ->
  pendingOutgoingMessages_ (chan w) <> [] ->
  calls sendNow cs w = Returned (buffering (sentBy cs) w).
Proof.
  revert w. induction cs as [| c cs IH]; intros w Hcs Hdisp Hpending.
  - simpl. now rewrite buffering_nil.
  - simpl in Hcs. apply andb_true_iff in Hcs as [Hc Hcs].
    destruct c as [serviceName payload |]; simpl in Hc; [| discriminate].
    cbn [calls call sentBy omap list_omap].
    rewrite send_buffers by auto. cbn [bind]. rewrite IH; auto.
    + now rewrite buffering_app.
    + simpl. intros E. now apply app_eq_nil in E as [? _].
Qed.

(** One delivery out of a non-empty buffer: the message reaches the module,
    and whatever the module sends in reaction goes to the end of the
    buffer. *)
Lemma sendNow_buffered depth message w m :
  googleSmartCardModule_ (chan w) = Some m ->
  sendsOnly m ->
  isDisposed w = false ->
  pendingOutgoingMessages_ (chan w) <> [] ->
  sendNow_ depth message w
  = Returned (buffering (sentBy (postMessage m (posted w) message))
                        (mkWorld (chan w) (posted w ++ [message]) (delivered w))).
Proof.
  intros Hm Hsends Hdisp Hpending.
  destruct depth; simpl; rewrite Hm; now apply calls_buffered.
Qed.

(** The loop: nothing leaves the buffer, and after [k] iterations from index
    [i] the module has been posted the [k] elements from [i] on. *)
Lemma drain_sendsOnly m steps depth :
  sendsOnly m ->
  forall i w,
    googleSmartCardModule_ (chan w) = Some m ->
    isDisposed w = false ->
    let o := drain steps depth i w in
    (exists extra, chan (stateOf o) = chan (buffering extra w))
    /\ delivered (stateOf o) = delivered w
    /\ posted (stateOf o)
       = posted w ++ take steps (drop i (pendingOutgoingMessages_ (chan (stateOf o))))
    /\ match o with
       | Returned w' =>
           length (pendingOutgoingMessages_ (chan w')) - i < steps
       | Diverged w' =>
           steps <= length (pendingOutgoingMessages_ (chan w')) - i
       | Threw _ _ => False
       end.
Proof.
  intros Hsends. induction steps as [| steps IH]; intros i w Hm Hdisp o;
    subst o; cbn [drain].
  - cbn [stateOf]. split; [exists []; now rewrite buffering_nil |].
    rewrite take_0, app_nil_r. repeat split; lia.
  - destruct (pendingOutgoingMessages_ (chan w) !! i) as [message |] eqn:Hi.
    + assert (pendingOutgoingMessages_ (chan w) <> []) as Hne
          by (intros E; now rewrite E in Hi).
      rewrite (sendNow_buffered depth message w m) by auto. cbn [bind].
      set (w1 := buffering _ _).
      destruct (IH (S i) w1) as ([extra Hchan] & Hdel & Hposted & Hend); auto.
      set (o := drain steps depth (S i) w1) in *.
      assert (pendingOutgoingMessages_ (chan (stateOf o)) !! i = Some message)
        as Hi'.
      { rewrite Hchan. simpl. rewrite <- app_assoc. now apply lookup_app_l_Some. }
      split; [| split; [| split]].
      * eexists. rewrite Hchan. unfold w1. now rewrite buffering_app.
      * now rewrite Hdel.
      * rewrite Hposted. simpl.
        rewrite (drop_S _ _ _ Hi'). simpl. now rewrite <- app_assoc.
      * apply lookup_lt_Some in Hi'.
        destruct o; simpl in *; auto; lia.
    + cbn [stateOf]. split; [exists []; now rewrite buffering_nil |].
      apply lookup_ge_None in Hi.
      rewrite drop_ge by lia. rewrite take_nil, app_nil_r.
      repeat split; lia.
Qed.

Lemma sendNow_quiet depth message w m :
  googleSmartCardModule_ (chan w) = Some m ->
  quiet m ->
  sendNow_ depth message w
  = Returned (mkWorld (chan w) (posted w ++ [message]) (delivered w)).
Proof.
  intros Hm Hquiet. destruct depth; simpl; rewrite Hm; now rewrite Hquiet.
Qed.

(** A module that never calls back: the loop posts what is left of the
    buffer and ends, whether the channel is disposed or not. *)
Lemma drain_quiet m steps depth :
  quiet m ->
  forall i w,
    googleSmartCardModule_ (chan w) = Some m ->
    length (pendingOutgoingMessages_ (chan w)) - i < steps ->
    drain steps depth i w
    = Returned (mkWorld (chan w)
                        (posted w ++ drop i (pendingOutgoingMessages_ (chan w)))
                        (delivered w)).
Proof.
  intros Hquiet. induction steps as [| steps IH]; intros i w Hm Hlen;
    [lia |]. cbn [drain].
  destruct (pendingOutgoingMessages_ (chan w) !! i) as [message |] eqn:Hi.
  - rewrite (sendNow_quiet depth message w m) by auto.
    cbn [bind]. apply lookup_lt_Some in Hi as Hlt.
    rewrite IH; simpl; auto; [| lia].
    rewrite (drop_S _ _ _ Hi). now rewrite <- app_assoc.
  - apply lookup_ge_None in Hi. rewrite drop_ge by lia.
    rewrite app_nil_r. now destruct w.
Qed.

(** Sends made while no module exists are buffered in order. *)
Lemma sends_before_module parse steps depth (sends : list (string * Value)) w :
  Forall (fun s => isObject s.2 = true) sends ->
  googleSmartCardModule_ (chan w) = None ->
  isDisposed w = false ->
  runOps parse steps depth (map (fun s => OpSend s.1 s.2) sends) w
  = buffering (map (fun s => envelope s.1 s.2) sends) w.
Proof.
  intros Hsends. revert w.
  induction Hsends as [| [serviceName payload] sends Hobj _ IH];
    intros w Hm Hdisp; simpl.
  - now rewrite buffering_nil.
  - rewrite send_buffers by auto. rewrite IH by auto.
    now rewrite buffering_app.
Qed.


Lemma stateOf_onModuleCreated steps depth m w :
  let o := drain steps depth 0 (withChan (setModule m) w) in
  posted (stateOf (onModuleCreated steps depth m w)) = posted (stateOf o)
  /\ delivered (stateOf (onModuleCreated steps depth m w)) = delivered (stateOf o).
Proof. unfold onModuleCreated. simpl. now destruct (drain _ _ _ _). Qed.

Lemma onModuleCreated_returned steps depth m w w' :
  onModuleCreated steps depth m w = Returned w' ->
  exists w0, drain steps depth 0 (withChan (setModule m) w) = Returned w0
             /\ w' = withChan clearPending w0.
Proof.
  unfold onModuleCreated. destruct (drain _ _ _ _) as [w0 | |]; simpl;
    intros E; inversion E. now exists w0.
Qed.

Lemma silentModule_quiet : quiet silentModule.
Proof. now intros history message. Qed.

Lemma quiet_sendsOnly m : quiet m -> sendsOnly m.
Proof. intros Hquiet history message. now rewrite Hquiet. Qed.

Lemma replyingModule_sendsOnly : sendsOnly replyingModule.
Proof.
  intros history message. simpl. now destruct (Nat.ltb (length history) 2).
Qed.

(** ** [send] on a disposed channel *)

(** C5.  On a disposed channel, [send] of an envelope, that is of a service
    name and an object payload, returns without an error and leaves the
    channel (buffer, module, registrations), and what its surroundings have
    seen of it, exactly as they were: nothing is posted or delivered, and
    [sendNow_] plays no part in the result. *)
Theorem send_on_disposed_is_silent
    sendNow parse steps depth serviceName payload w :
  isObject payload = true ->
  isDisposed w = true ->
  send sendNow serviceName payload w = Returned w
  /\ runOp parse steps depth (OpSend serviceName payload) w = Returned w
  /\ call sendNow (CallSend serviceName payload) w = Returned w.
Proof.
  intros Hobj Hdisp.
  assert (forall f, send f serviceName payload w = Returned w) as Hsend.
  { intros f. unfold send. rewrite Hobj. cbn [negb]. now rewrite Hdisp. }
  split; [apply Hsend |]. split; [apply Hsend |]. cbn [call]. apply Hsend.
Qed.

Lemma send_on_disposed_is_silent_witness :
  isObject emptyObject = true
  /\ isDisposed (dispose constructor) = true
  /\ send (sendNow_ 0) "ping" emptyObject (dispose constructor)
     = Returned (dispose constructor).
Proof.
  split; [reflexivity |]. split; [reflexivity |].
  exact (proj1 (send_on_disposed_is_silent
                  (sendNow_ 0) TypedMessage.parseTypedMessage 0 0
                  "ping" emptyObject (dispose constructor)
                  eq_refl eq_refl)).
Defined.

(** The object payload is needed: a payload that is not an object, which
    is no envelope, makes [send] throw on a disposed channel too. *)
Lemma send_on_disposed_can_throw :
  send (sendNow_ 0) "ping" (VString "text") (dispose constructor)
  = Threw CheckFailure (dispose constructor)
  /\ ~ (forall sendNow serviceName payload w,
           isDisposed w = true ->
           send sendNow serviceName payload w = Returned w).
Proof.
  split; [reflexivity |]. intros H.
  specialize (H (sendNow_ 0) "ping" (VString "text") (dispose constructor) eq_refl).
  discriminate H.
Qed.

(** C9.  [send] checks that the payload is an object before it looks at the
    disposed flag: a payload that is not an object makes it throw whatever
    the state of the channel, and on a disposed channel [send] returns
    silently exactly when the payload is an object. *)
Theorem send_checks_payload_first sendNow serviceName payload w :
  (isObject payload = false ->
   send sendNow serviceName payload w = Threw CheckFailure w)
  /\ (isDisposed w = true ->
      (send sendNow serviceName payload w = Returned w
       <-> isObject payload = true)).
Proof.
  split; [apply send_non_object |]. intros Hdisp. split.
  - destruct (isObject payload) eqn:Hobj; [reflexivity |].
    rewrite send_non_object by exact Hobj. discriminate.
  - intros Hobj. now apply send_disposed.
Qed.

Lemma send_checks_payload_first_witness :
  isObject (VNumber 7) = false
  /\ isDisposed (dispose constructor) = true
  /\ send (sendNow_ 0) "ping" (VNumber 7) (dispose constructor)
     = Threw CheckFailure (dispose constructor).
Proof.
  split; [reflexivity |]. split; [reflexivity |].
  exact (proj1 (send_checks_payload_first (sendNow_ 0) "ping" (VNumber 7)
                  (dispose constructor)) eq_refl).
Defined.

(** ** Inbound messages *)

Lemma route_subscribersFor services serviceName payload :
  route services serviceName payload
  = map (fun callback => (callback, payload))
        (subscribersFor serviceName services).
Proof.
  unfold subscribersFor.
  induction services as [| [name callback] services IH]; simpl; [reflexivity |].
  rewrite filter_cons. simpl.
  destruct (String.eqb_spec name serviceName) as [-> | Hne].
  - rewrite decide_True by reflexivity. simpl. now rewrite IH.
  - now rewrite decide_False by exact Hne.
Qed.

Lemma subscribersFor_registered serviceName callback services :
  callback ∈ subscribersFor serviceName services
  <-> (serviceName, callback) ∈ services.
Proof.
  unfold subscribersFor. rewrite list_elem_of_fmap. split.
  - intros ([name cb] & -> & Hin). apply list_elem_of_filter in Hin as [E Hin].
    simpl in E. now subst.
  - intros Hin. exists (serviceName, callback). split; [reflexivity |].
    apply list_elem_of_filter. now split.
Qed.

(** C2.  Whatever the decoder: a raw message that decodes to a message of
    type T is handed, once, to each subscriber registered for T and to no
    other, in the order of registration, and nothing else changes; a raw
    message that does not decode makes [onMessageFromModule] throw the
    check failure and reaches no subscriber.  The subscribers for T are
    those registered under T, and a registration comes last in its
    type. *)
Theorem inbound_message_routed parse message w :
  (forall typedMessage,
      parse message = Some typedMessage ->
      onMessageFromModule parse message w
      = Returned
          (mkWorld (chan w) (posted w)
             (delivered w
              ++ map (fun callback => (callback, TypedMessage.data typedMessage))
                     (subscribersFor (TypedMessage.type typedMessage)
                                     (services_ (chan w))))))
  /\ (parse message = None ->
      onMessageFromModule parse message w = Threw CheckFailure w)
  /\ (forall serviceName callback,
        callback ∈ subscribersFor serviceName (services_ (chan w))
        <-> (serviceName, callback) ∈ services_ (chan w))
  /\ (forall serviceName registered callback,
        subscribersFor serviceName
          (services_ (chan (registerService registered callback w)))
        = subscribersFor serviceName (services_ (chan w))
          ++ (if decide (registered = serviceName) then [callback] else [])).
Proof.
  split; [| split; [| split]].
  - intros typedMessage Hparse. unfold onMessageFromModule, deliver.
    rewrite Hparse. now rewrite route_subscribersFor.
  - intros Hparse. unfold onMessageFromModule. now rewrite Hparse.
  - intros. apply subscribersFor_registered.
  - intros serviceName registered callback. unfold subscribersFor. simpl.
    rewrite filter_app, map_app. f_equal.
    rewrite filter_cons, filter_nil. simpl. now case_decide.
Qed.

Lemma inbound_message_routed_witness :
  TypedMessage.parseTypedMessage (envelope "b" emptyObject)
  = Some (TypedMessage.new "b" emptyObject)
  /\ TypedMessage.parseTypedMessage VNull = None
  /\ onMessageFromModule TypedMessage.parseTypedMessage
       (envelope "b" emptyObject) subscribedChannel
     = Returned (mkWorld (chan subscribedChannel) []
                         [(0, emptyObject); (2, emptyObject)])
  /\ onMessageFromModule TypedMessage.parseTypedMessage VNull subscribedChannel
     = Threw CheckFailure subscribedChannel.
Proof.
  split; [reflexivity |]. split; [reflexivity |]. split.
  - exact (proj1 (inbound_message_routed TypedMessage.parseTypedMessage
                    (envelope "b" emptyObject) subscribedChannel)
             (TypedMessage.new "b" emptyObject) eq_refl).
  - exact (proj1 (proj2 (inbound_message_routed TypedMessage.parseTypedMessage
                           VNull subscribedChannel)) eq_refl).
Defined.


(** ** Disposal *)

(** A disposed channel, as long as no module is handed to it: no call changes
    the channel or posts anything, and with no subscriber left no call
    delivers anything either. *)
Lemma disposed_silent parse steps depth later w :
  isDisposed w = true ->
  Forall (fun op => isOnModuleCreated op = false) later ->
  let w' := runOps parse steps depth later w in
  chan w' = chan w
  /\ posted w' = posted w
  /\ (services_ (chan w) = [] -> delivered w' = delivered w).
Proof.
  intros Hdisp Hlater. revert w Hdisp.
  induction Hlater as [| op later Hop _ IH]; intros w Hdisp; [now simpl |].
  cbn [runOps].
  assert (exists e, (runOp parse steps depth op w = Returned e
                     \/ exists err, runOp parse steps depth op w = Threw err e)
                    /\ chan e = chan w /\ posted e = posted w
                    /\ (services_ (chan w) = [] -> delivered e = delivered w))
    as (e & Hrun & Hchan & Hposted & Hdel).
  { destruct op as [serviceName payload | | m | message]; simpl in *.
    - destruct (isObject payload) eqn:Hobj.
      + exists w. rewrite send_disposed by auto. auto.
      + exists w. rewrite send_non_object by auto. eauto 6.
    - exists w. rewrite dispose_again by auto. auto.
    - discriminate.
    - unfold onMessageFromModule, deliver.
      destruct (parse message) as [typedMessage |]; eexists; split; eauto.
      simpl. repeat split; auto. intros ->. simpl. apply app_nil_r. }
  assert (isDisposed e = true) as Hdisp' by (unfold isDisposed; now rewrite Hchan).
  destruct (IH e Hdisp') as (Hc & Hp & Hd).
  assert (runOps parse steps depth later e
          = match runOp parse steps depth op w with
            | Returned w' | Threw _ w' => runOps parse steps depth later w'
            | Diverged w' => w'
            end) as <-
      by (destruct Hrun as [-> | [err ->]]; reflexivity).
  rewrite Hc, Hp. repeat split; auto.
  intros Hs. rewrite Hd, Hdel; auto. now rewrite Hchan.
Qed.

(** C8.  A channel that holds buffered messages and has no module is
    disposed: [dispose] returns without an error, posts and delivers nothing,
    and from then on, as long as no module is ever handed to the channel, no
    sequence of calls changes its state or what its surroundings see: the
    buffered messages are never posted. *)
Theorem dispose_without_module_discards parse steps depth w later :
  googleSmartCardModule_ (chan w) = None ->
  isDisposed w = false ->
  Forall (fun op => isOnModuleCreated op = false) later ->
  runOp parse steps depth OpDispose w = Returned (dispose w)
  /\ isDisposed (dispose w) = true
  /\ posted (dispose w) = posted w
  /\ delivered (dispose w) = delivered w
  /\ runOps parse steps depth later (dispose w) = dispose w
  /\ posted (runOps parse steps depth (OpDispose :: later) w) = posted w.
Proof.
  intros Hm Hdisp Hlater.
  destruct (dispose_fresh w Hdisp) as [_ Hservices].
  destruct (disposed_silent parse steps depth later (dispose w)
              (dispose_isDisposed w) Hlater) as (Hc & Hp & Hd).
  specialize (Hd Hservices).
  assert (runOps parse steps depth later (dispose w) = dispose w) as Hinert.
  { destruct (runOps parse steps depth later (dispose w)), (dispose w).
    simpl in *. now subst. }
  repeat split; auto using dispose_isDisposed, dispose_posted, dispose_delivered.
  cbn [runOps runOp]. now rewrite Hinert, dispose_posted.
Qed.

Lemma dispose_without_module_discards_witness :
  googleSmartCardModule_ (chan (buffering backlog constructor)) = None
  /\ isDisposed (buffering backlog constructor) = false
  /\ Forall (fun op => isOnModuleCreated op = false)
            [OpSend "ping" emptyObject; OpOnMessageFromModule VNull; OpDispose]
  /\ posted (runOps TypedMessage.parseTypedMessage 9 9
               [OpDispose; OpSend "ping" emptyObject;
                OpOnMessageFromModule VNull; OpDispose]
               (buffering backlog constructor))
     = [].
Proof.
  assert (Forall (fun op => isOnModuleCreated op = false)
                 [OpSend "ping" emptyObject; OpOnMessageFromModule VNull;
                  OpDispose]) as Hlater by (repeat constructor).
  split; [reflexivity |]. split; [reflexivity |]. split; [exact Hlater |].
  exact (proj2 (proj2 (proj2 (proj2 (proj2
           (dispose_without_module_discards TypedMessage.parseTypedMessage 9 9
              (buffering backlog constructor)
              [OpSend "ping" emptyObject; OpOnMessageFromModule VNull; OpDispose]
              eq_refl eq_refl Hlater)))))).
Defined.

(** [disposeInternal] has dropped the module by the time the registrations
    are released. *)
Lemma disposeInternal_order w :
  disposeInternal w
  = withChan AbstractChannel_disposeInternal (withChan deleteModule w)
  /\ googleSmartCardModule_ (chan (withChan deleteModule w)) = None
  /\ services_ (chan (withChan deleteModule w)) = services_ (chan w).
Proof. now unfold disposeInternal. Qed.

(** Without a module the loop cannot post: it throws at the first message
    that is left, and the buffer stays as it is. *)
Lemma drain_without_module steps depth i w :
  googleSmartCardModule_ (chan w) = None ->
  stateOf (drain steps depth i w) = w
  /\ (forall message,
        pendingOutgoingMessages_ (chan w) !! i = Some message ->
        drain (S steps) depth i w = Threw TypeError w).
Proof.
  intros Hm. split.
  - destruct steps as [| steps]; cbn [drain]; [reflexivity |].
    destruct (pendingOutgoingMessages_ (chan w) !! i); [| reflexivity].
    destruct depth; simpl; now rewrite Hm.
  - intros message Hi. cbn [drain]. rewrite Hi.
    destruct depth; simpl; now rewrite Hm.
Qed.

Lemma sendNow_disposing depth message w :
  googleSmartCardModule_ (chan w) = Some disposingModule ->
  sendNow_ depth message w
  = Returned (dispose (mkWorld (chan w) (posted w ++ [message]) (delivered w))).
Proof. intros Hm. destruct depth; simpl; now rewrite Hm. Qed.

(** A module that disposes the channel from inside the first [postMessage]
    of the drain: that message is the last one posted; the loop throws at the
    next one, and the rest of the buffer stays where it is. *)
Lemma dispose_during_drain steps depth first second rest w :
  isDisposed w = false ->
  pendingOutgoingMessages_ (chan w) = first :: second :: rest ->
  exists w',
    onModuleCreated (S (S steps)) depth disposingModule w = Threw TypeError w'
    /\ posted w' = posted w ++ [first]
    /\ isDisposed w' = true
    /\ googleSmartCardModule_ (chan w') = None
    /\ pendingOutgoingMessages_ (chan w') = first :: second :: rest.
Proof.
  intros Hdisp Hpending. unfold onModuleCreated.
  set (ready := withChan (setModule disposingModule) w).
  assert (pendingOutgoingMessages_ (chan ready) = first :: second :: rest)
    as Hp by exact Hpending.
  assert (googleSmartCardModule_ (chan ready) = Some disposingModule)
    as Hm by reflexivity.
  change (drain (S (S steps)) depth 0 ready)
    with (match pendingOutgoingMessages_ (chan ready) !! 0 with
          | Some message =>
              bind (sendNow_ depth message ready) (drain (S steps) depth 1)
          | None => Returned ready
          end).
  rewrite Hp. simpl (_ !! _). cbv beta iota.
  rewrite sendNow_disposing by exact Hm. cbn [bind].
  set (w1 := dispose _).
  assert (googleSmartCardModule_ (chan w1) = None) as Hnone
      by (apply dispose_fresh; exact Hdisp).
  assert (pendingOutgoingMessages_ (chan w1) = first :: second :: rest) as Hp1
      by (unfold w1; rewrite dispose_pending; exact Hp).
  destruct (drain_without_module steps depth 1 w1 Hnone) as [_ Hthrow].
  rewrite (Hthrow second) by (now rewrite Hp1). cbn [bind].
  exists w1. split; [reflexivity |].
  split; [unfold w1; now rewrite dispose_posted |].
  split; [apply dispose_isDisposed |]. now split.
Qed.

(** [onModuleCreated] does not look at the disposed flag: handed a module
    that never calls back, it installs it and posts the whole buffer, on a
    disposed channel as on any other. *)
Lemma onModuleCreated_ignores_disposed steps depth m w :
  quiet m ->
  length (pendingOutgoingMessages_ (chan w)) < steps ->
  onModuleCreated steps depth m w
  = Returned (mkWorld (clearPending (setModule m (chan w)))
                      (posted w ++ pendingOutgoingMessages_ (chan w))
                      (delivered w)).
Proof.
  intros Hquiet Hlen. unfold onModuleCreated.
  rewrite (drain_quiet m) by (simpl; auto; lia). reflexivity.
Qed.

(** C3 at the sequence [send], [dispose], [onModuleCreated]: the channel is
    disposed and holds no module, yet [onModuleCreated] installs the module
    it is given and posts the buffered message to it. *)
Theorem dispose_then_onModuleCreated_posts :
  isDisposed (runOps TypedMessage.parseTypedMessage 2 0
                [OpSend "ping" emptyObject; OpDispose] constructor) = true
  /\ googleSmartCardModule_
       (chan (runOps TypedMessage.parseTypedMessage 2 0
                [OpSend "ping" emptyObject; OpDispose] constructor)) = None
  /\ posted (runOps TypedMessage.parseTypedMessage 2 0
               [OpSend "ping" emptyObject; OpDispose] constructor) = []
  /\ exists w',
       onModuleCreated 2 0 silentModule
         (runOps TypedMessage.parseTypedMessage 2 0
            [OpSend "ping" emptyObject; OpDispose] constructor)
       = Returned w'
       /\ isDisposed w' = true
       /\ googleSmartCardModule_ (chan w') = Some silentModule
       /\ posted w' = [envelope "ping" emptyObject].
Proof.
  repeat (split; [reflexivity |]). eexists. split; [reflexivity |].
  repeat split.
Qed.


(** ** Scenarios *)

(** Two sends before the module exists, then the module: it is posted the
    first message, then the second, and nothing else. *)
Example scenario_ping_pong :
  onModuleCreated 3 0 silentModule
    (runOps TypedMessage.parseTypedMessage 3 0
       [OpSend "ping" emptyObject; OpSend "pong" emptyObject] constructor)
  = Returned (mkWorld (mkChannel false [] [] (Some silentModule)) backlog []).
Proof. reflexivity. Qed.

(** The module answers from inside [postMessage]: its answers are posted
    after the buffered messages, and a message sent once the drain is over is
    posted after the answers. *)
Example scenario_reentrant_send :
  posted (runOps TypedMessage.parseTypedMessage 9 1
            [OpSend "ping" emptyObject; OpSend "pong" emptyObject;
             OpOnModuleCreated replyingModule; OpSend "late" emptyObject]
            constructor)
  = backlog ++ [envelope "reply" emptyObject; envelope "reply" emptyObject;
                envelope "late" emptyObject].
Proof. reflexivity. Qed.

(** Two messages buffered, no module, [dispose]: nothing is posted. *)
Example scenario_dispose_with_backlog :
  runOp TypedMessage.parseTypedMessage 3 0 OpDispose
    (buffering backlog constructor)
  = Returned (mkWorld (mkChannel true [] backlog None) [] []).
Proof. reflexivity. Qed.

(** * Further properties of the message channel *)

(** ** The buffer is only emptied by [onModuleCreated] *)

Section BufferGrows.

Variable sendNow : Value -> World -> Outcome World.
Hypothesis sendNow_keeps :
  forall message w,
    pendingOutgoingMessages_ (chan w)
    `prefix_of` pendingOutgoingMessages_ (chan (stateOf (sendNow message w))).

Lemma send_keeps_buffer serviceName payload w :
  pendingOutgoingMessages_ (chan w)
  `prefix_of`
  pendingOutgoingMessages_ (chan (stateOf (send sendNow serviceName payload w))).
Proof.
  unfold send.
  repeat match goal with
         | |- context [if ?b then _ else _] => destruct b
         end; simpl; try reflexivity; auto.
  now apply prefix_app_r.
Qed.

Lemma calls_keep_buffer cs w :
  pendingOutgoingMessages_ (chan w)
  `prefix_of` pendingOutgoingMessages_ (chan (stateOf (calls sendNow cs w))).
Proof.
  revert w. induction cs as [| c cs IH]; intros w; cbn [calls];
    [reflexivity |].
  assert (pendingOutgoingMessages_ (chan w)
          `prefix_of`
          pendingOutgoingMessages_ (chan (stateOf (call sendNow c w)))) as Hc.
  { destruct c; cbn [call]; [apply send_keeps_buffer |].
    cbn [stateOf]. now rewrite dispose_pending. }
  destruct (call sendNow c w) as [w1 | e w1 | w1]; cbn [bind stateOf] in *; auto.
  etransitivity; [exact Hc | apply IH].
Qed.

End BufferGrows.

Lemma sendNow_keeps_buffer depth message w :
  pendingOutgoingMessages_ (chan w)
  `prefix_of`
  pendingOutgoingMessages_ (chan (stateOf (sendNow_ depth message w))).
Proof.
  revert message w. induction depth as [| depth IH]; intros message w; simpl;
    (destruct (googleSmartCardModule_ (chan w)); [| reflexivity]).
  - etransitivity;
      [| apply (calls_keep_buffer (fun _ w' => Diverged w'));
         intros; reflexivity].
    reflexivity.
  - etransitivity; [| apply (calls_keep_buffer (sendNow_ depth) IH)].
    reflexivity.
Qed.

Lemma drain_keeps_buffer steps depth i w :
  pendingOutgoingMessages_ (chan w)
  `prefix_of`
  pendingOutgoingMessages_ (chan (stateOf (drain steps depth i w))).
Proof.
  revert i w. induction steps as [| steps IH]; intros i w; cbn [drain];
    [reflexivity |].
  destruct (pendingOutgoingMessages_ (chan w) !! i); [| reflexivity].
  pose proof (sendNow_keeps_buffer depth v w) as Hs.
  destruct (sendNow_ depth v w) as [w1 | e w1 | w1]; cbn [bind stateOf] in *;
    auto.
  etransitivity; [exact Hs | apply IH].
Qed.

(** The first iteration of the loop posts the message at its index before
    anything else can go wrong. *)
Lemma drain_posts_first steps depth i w m message :
  googleSmartCardModule_ (chan w) = Some m ->
  pendingOutgoingMessages_ (chan w) !! i = Some message ->
  (posted w ++ [message])
  `prefix_of` posted (stateOf (drain (S steps) depth i w)).
Proof.
  intros Hm Hi. cbn [drain]. rewrite Hi.
  assert ((posted w ++ [message])
          `prefix_of` posted (stateOf (sendNow_ depth message w))) as Hfirst.
  { destruct depth; simpl; rewrite Hm.
    - etransitivity;
        [| apply (calls_advances (fun _ w' => Diverged w'));
           intros; reflexivity].
      reflexivity.
    - etransitivity;
        [| apply (calls_advances (sendNow_ depth) (sendNow_advances depth))].
      reflexivity. }
  destruct (sendNow_ depth message w) as [w1 | e w1 | w1];
    cbn [bind stateOf] in *; auto.
  etransitivity; [exact Hfirst | apply drain_advances].
Qed.

(** While something is buffered, no call but [onModuleCreated] posts: a
    [send] is appended or dropped, and the buffer stays non-empty. *)
Lemma nonempty_buffer_blocks parse steps depth later w :
  pendingOutgoingMessages_ (chan w) <> [] ->
  Forall (fun op => isOnModuleCreated op = false) later ->
  posted (runOps parse steps depth later w) = posted w
  /\ pendingOutgoingMessages_ (chan w)
     `prefix_of` pendingOutgoingMessages_ (chan (runOps parse steps depth later w)).
Proof.
  intros Hne Hlater. revert w Hne.
  induction Hlater as [| op later Hop _ IH]; intros w Hne; [now simpl |].
  cbn [runOps].
  assert (exists w1,
             (runOp parse steps depth op w = Returned w1
              \/ exists e, runOp parse steps depth op w = Threw e w1)
             /\ posted w1 = posted w
             /\ pendingOutgoingMessages_ (chan w)
                `prefix_of` pendingOutgoingMessages_ (chan w1))
    as (w1 & Hrun & Hposted & Hpre).
  { destruct op as [serviceName payload | | m | message]; simpl in *.
    - destruct (isObject payload) eqn:Hobj;
        [| exists w; rewrite send_non_object by auto; eauto 6].
      destruct (isDisposed w) eqn:Hdisp.
      + exists w. rewrite send_disposed by auto. auto.
      + rewrite send_buffers by auto. eexists. split; [eauto |].
        split; [reflexivity |]. simpl. now apply prefix_app_r.
    - eexists. split; [eauto |]. rewrite dispose_posted, dispose_pending. auto.
    - discriminate.
    - unfold onMessageFromModule, deliver.
      destruct (parse message); eexists; (split; [eauto |]); auto. }
  assert (pendingOutgoingMessages_ (chan w1) <> []) as Hne1.
  { intros E. rewrite E in Hpre. apply prefix_nil_inv in Hpre. auto. }
  destruct (IH w1 Hne1) as (Hp & Hb).
  assert (runOps parse steps depth later w1
          = match runOp parse steps depth op w with
            | Returned w' | Threw _ w' => runOps parse steps depth later w'
            | Diverged w' => w'
            end) as <-
      by (destruct Hrun as [-> | [e ->]]; reflexivity).
  rewrite Hp, Hposted. split; [reflexivity |].
  etransitivity; [exact Hpre | exact Hb].
Qed.

(** What an [onModuleCreated] that throws leaves behind. *)
Lemma onModuleCreated_threw steps depth m w e w' :
  onModuleCreated steps depth m w = Threw e w' ->
  exists first rest more,
    pendingOutgoingMessages_ (chan w') = first :: rest
    /\ pendingOutgoingMessages_ (chan w)
       `prefix_of` pendingOutgoingMessages_ (chan w')
    /\ posted w' = posted w ++ first :: more.
Proof.
  unfold onModuleCreated. intros Hthrew.
  set (w0 := withChan (setModule m) w) in *.
  assert (stateOf (drain steps depth 0 w0) = w'
          /\ exists e0, drain steps depth 0 w0 = Threw e0 w') as [Hstate _].
  { destruct (drain steps depth 0 w0); simpl in Hthrew; inversion Hthrew.
    subst. eauto. }
  destruct steps as [| steps].
  { simpl in Hthrew. discriminate. }
  destruct (pendingOutgoingMessages_ (chan w0) !! 0) as [first |] eqn:Hfirst.
  2: { cbn [drain] in Hthrew. rewrite Hfirst in Hthrew. discriminate. }
  pose proof (drain_posts_first steps depth 0 w0 m first eq_refl Hfirst)
    as [more Hposted].
  pose proof (drain_keeps_buffer (S steps) depth 0 w0) as Hbuf.
  rewrite Hstate in Hposted, Hbuf.
  assert (pendingOutgoingMessages_ (chan w') !! 0 = Some first) as H0
      by (eapply prefix_lookup_Some; eauto).
  destruct (pendingOutgoingMessages_ (chan w')) as [| first' rest] eqn:Hp;
    [discriminate |].
  simpl in H0. inversion H0; subst first'.
  exists first, rest, more. split; [reflexivity |]. split; [exact Hbuf |].
  rewrite Hposted. simpl. now rewrite <- app_assoc.
Qed.


(** ** Deliveries out of a non-empty buffer, for any module *)

(** While something is buffered, [send] never reaches [sendNow_]: it throws
    on a payload that is not an object, drops the message on a disposed
    channel and appends it otherwise. *)
Lemma send_blocked sendNow serviceName payload w :
  pendingOutgoingMessages_ (chan w) <> [] ->
  send sendNow serviceName payload w
  = if negb (isObject payload) then Threw CheckFailure w
    else if isDisposed w then Returned w
    else Returned (buffering [envelope serviceName payload] w).
Proof.
  intros Hne. destruct (isObject payload) eqn:Hobj; cbn [negb].
  - destruct (isDisposed w) eqn:Hd.
    + now apply send_disposed.
    + apply send_buffers; auto.
  - now apply send_non_object.
Qed.

(** So a reaction of the module that finds the buffer non-empty posts
    nothing, whatever it is made of. *)
Lemma calls_blocked sendNow cs w :
  pendingOutgoingMessages_ (chan w) <> [] ->
  posted (stateOf (calls sendNow cs w)) = posted w.
Proof.
  revert w. induction cs as [| c cs IH]; intros w Hne; cbn [calls];
    [reflexivity |].
  destruct c as [serviceName payload |]; cbn [call].
  - rewrite send_blocked by exact Hne.
    destruct (isObject payload); cbn [negb]; [| reflexivity].
    destruct (isDisposed w); cbn [bind]; [now apply IH |].
    rewrite IH; [reflexivity |]. simpl. intros E.
    now apply app_eq_nil in E as [_ ?].
  - cbn [bind]. rewrite IH; [apply dispose_posted |].
    now rewrite dispose_pending.
Qed.

(** One delivery out of a non-empty buffer posts its message and nothing
    else, whatever the module does in reaction. *)
Lemma sendNow_posts_one depth message w m :
  googleSmartCardModule_ (chan w) = Some m ->
  pendingOutgoingMessages_ (chan w) <> [] ->
  posted (stateOf (sendNow_ depth message w)) = posted w ++ [message].
Proof.
  intros Hm Hne.
  destruct depth; cbn [sendNow_]; rewrite Hm; now rewrite calls_blocked.
Qed.

(** The loop, for any module: what it has posted after any number of
    iterations is a run of consecutive elements of the buffer from its
    index on, and when it returns it has reached the end of the buffer. *)
Lemma drain_posts_buffer steps depth :
  forall i w,
    let o := drain steps depth i w in
    exists k,
      k <= steps
      /\ posted (stateOf o)
         = posted w
           ++ take k (drop i (pendingOutgoingMessages_ (chan (stateOf o))))
      /\ (forall w', o = Returned w' ->
            length (pendingOutgoingMessages_ (chan w')) <= i + k).
Proof.
  induction steps as [| steps IH]; intros i w o; subst o; cbn [drain].
  - exists 0. cbn [stateOf]. split; [lia |].
    split; [now rewrite take_0, app_nil_r | discriminate].
  - destruct (pendingOutgoingMessages_ (chan w) !! i) as [message |] eqn:Hi.
    2: { exists 0. cbn [stateOf]. split; [lia |].
         split; [now rewrite take_0, app_nil_r |].
         intros w' E. inversion E; subst w'.
         apply lookup_ge_None in Hi. lia. }
    destruct (googleSmartCardModule_ (chan w)) as [m |] eqn:Hm.
    2: { exists 0. destruct depth; cbn [sendNow_]; rewrite Hm;
           cbn [bind stateOf];
           (split; [lia |]);
           (split; [now rewrite take_0, app_nil_r | discriminate]). }
    assert (pendingOutgoingMessages_ (chan w) <> []) as Hne
        by (intros E; now rewrite E in Hi).
    pose proof (sendNow_posts_one depth message w m Hm Hne) as Hone.
    pose proof (sendNow_keeps_buffer depth message w) as Hkeep.
    destruct (sendNow_ depth message w) as [w1 | e w1 | w1];
      cbn [bind stateOf] in *.
    + destruct (IH (S i) w1) as (k & Hk & Hposted & Hend).
      pose proof (drain_keeps_buffer steps depth (S i) w1) as Hkeep'.
      set (o := drain steps depth (S i) w1) in *.
      assert (pendingOutgoingMessages_ (chan (stateOf o)) !! i = Some message)
        as Hi'.
      { eapply prefix_lookup_Some; [| exact Hkeep'].
        eapply prefix_lookup_Some; [exact Hi | exact Hkeep]. }
      exists (S k). split; [lia |]. split.
      * rewrite Hposted, Hone, (drop_S _ _ _ Hi'). simpl.
        now rewrite <- app_assoc.
      * intros w' E. specialize (Hend w' E). lia.
    + assert (pendingOutgoingMessages_ (chan w1) !! i = Some message) as Hi'
          by (eapply prefix_lookup_Some; [exact Hi | exact Hkeep]).
      exists 1. split; [lia |]. split; [| discriminate].
      now rewrite Hone, (drop_S _ _ _ Hi').
    + assert (pendingOutgoingMessages_ (chan w1) !! i = Some message) as Hi'
          by (eapply prefix_lookup_Some; [exact Hi | exact Hkeep]).
      exists 1. split; [lia |]. split; [| discriminate].
      now rewrite Hone, (drop_S _ _ _ Hi').
Qed.

(** ** The drain *)

(** C10, as amended.  While [onModuleCreated] iterates, whatever the module
    does and whatever the state of the channel: the buffer only grows (it
    is the one the loop started with followed by what was appended since);
    the messages posted so far are its first elements, so nothing that was
    delivered has left it and it is not empty once a delivery has been
    made; a [send] that finds the buffer non-empty never delivers: it
    appends to the buffer when the channel is not disposed and is dropped
    when it is; a delivery of the loop posts its one message and nothing
    more; and when [onModuleCreated] returns, the buffer is empty and all of
    it was posted.  For a module that reacts only with [send]s of objects,
    on a channel that is not disposed, every reentrant [send] is appended
    and every iteration delivers; for a module that never calls back
    [onModuleCreated] returns as soon as the bound exceeds the length of the
    buffer.  The bound [steps] is arbitrary, so [stateOf o] is the state of
    the loop after any number of iterations, or at its end. *)
Theorem drain_keeps_buffer_until_done m w steps depth :
  let o := drain steps depth 0 (withChan (setModule m) w) in
  let buffer := pendingOutgoingMessages_ (chan (stateOf o)) in
  (exists appended, buffer = pendingOutgoingMessages_ (chan w) ++ appended)
  /\ (exists k, k <= steps /\ posted (stateOf o) = posted w ++ take k buffer)
  /\ (posted (stateOf o) <> posted w -> buffer <> [])
  /\ (forall sendNow serviceName payload w1,
        isObject payload = true ->
        pendingOutgoingMessages_ (chan w1) <> [] ->
        send sendNow serviceName payload w1
        = Returned (if isDisposed w1 then w1
                    else buffering [envelope serviceName payload] w1))
  /\ (forall module message w1,
        googleSmartCardModule_ (chan w1) = Some module ->
        pendingOutgoingMessages_ (chan w1) <> [] ->
        posted (stateOf (sendNow_ depth message w1)) = posted w1 ++ [message])
  /\ (forall w',
        onModuleCreated steps depth m w = Returned w' ->
        pendingOutgoingMessages_ (chan w') = []
        /\ posted w' = posted w ++ buffer)
  /\ (sendsOnly m ->
      isDisposed w = false ->
      posted (stateOf o) = posted w ++ take steps buffer
      /\ forall i message w1,
           googleSmartCardModule_ (chan w1) = Some m ->
           isDisposed w1 = false ->
           pendingOutgoingMessages_ (chan w1) !! i = Some message ->
           sendNow_ depth message w1
           = Returned (buffering (sentBy (postMessage m (posted w1) message))
                                 (mkWorld (chan w1) (posted w1 ++ [message])
                                          (delivered w1))))
  /\ (quiet m ->
      length (pendingOutgoingMessages_ (chan w)) < steps ->
      exists w', onModuleCreated steps depth m w = Returned w').
Proof.
  intros o buffer.
  destruct (drain_posts_buffer steps depth 0 (withChan (setModule m) w))
    as (k & Hk & Hposted & Hend).
  pose proof (drain_keeps_buffer steps depth 0 (withChan (setModule m) w))
    as [appended Hbuf].
  fold o in Hposted, Hend, Hbuf. rewrite drop_0 in Hposted.
  fold buffer in Hposted, Hbuf. simpl in Hposted, Hbuf.
  split; [| split; [| split; [| split; [| split; [| split; [| split]]]]]].
  - exists appended. exact Hbuf.
  - exists k. split; [exact Hk | exact Hposted].
  - intros Hne E. apply Hne. rewrite Hposted, E, take_nil. apply app_nil_r.
  - intros sendNow serviceName payload w1 Hobj Hne.
    rewrite send_blocked by exact Hne. rewrite Hobj. cbn [negb].
    now destruct (isDisposed w1).
  - intros module message w1 Hm Hne. now apply (sendNow_posts_one _ _ _ module).
  - intros w' Hret.
    apply onModuleCreated_returned in Hret as (w0 & Hw0 & ->).
    split; [reflexivity |]. simpl.
    fold o in Hw0. specialize (Hend w0 Hw0).
    unfold buffer in *. clear buffer. rewrite Hw0 in Hposted |- *.
    simpl in Hposted |- *. rewrite Hposted. f_equal. apply take_ge. lia.
  - intros Hsends Hdisp.
    destruct (drain_sendsOnly m steps depth Hsends 0 (withChan (setModule m) w))
      as (_ & _ & Hposted' & _); auto.
    fold o in Hposted'. rewrite drop_0 in Hposted'. split; [exact Hposted' |].
    intros i message w1 Hm Hd1 Hi.
    apply sendNow_buffered; auto. intros E. now rewrite E in Hi.
  - intros Hquiet Hlen. unfold onModuleCreated.
    rewrite (drain_quiet m) by (simpl; auto; lia). simpl. eauto.
Qed.

Lemma drain_keeps_buffer_until_done_witness :
  sendsOnly replyingModule
  /\ isDisposed (buffering backlog constructor) = false
  /\ posted (stateOf (drain 9 0 0 (withChan (setModule replyingModule)
                                            (buffering backlog constructor))))
     = take 9 (pendingOutgoingMessages_
                 (chan (stateOf (drain 9 0 0
                         (withChan (setModule replyingModule)
                                   (buffering backlog constructor)))))).
Proof.
  split; [exact replyingModule_sendsOnly |]. split; [reflexivity |].
  exact (proj1 (proj1 (proj2 (proj2 (proj2 (proj2 (proj2 (proj2
           (drain_keeps_buffer_until_done
              replyingModule (buffering backlog constructor) 9 0)))))))
           replyingModule_sendsOnly eq_refl)).
Defined.

(** C10, as stated, fails: a [send] the module makes during the drain is
    not always appended.  A module that sends, disposes the channel and
    sends again from inside [postMessage] has its second message dropped:
    it is neither in the buffer nor posted.  On a channel that was disposed
    before [onModuleCreated], every reply of the module during the drain is
    dropped in the same way. *)
Lemma reentrant_send_on_disposed_is_dropped :
  onModuleCreated 9 0 partingModule (buffering backlog constructor)
  = Threw TypeError
      (mkWorld (mkChannel true []
                          (backlog ++ [envelope "bye" emptyObject]) None)
               [envelope "ping" emptyObject] [])
  /\ onModuleCreated 9 0 replyingModule (dispose (buffering backlog constructor))
     = Returned (mkWorld (mkChannel true [] [] (Some replyingModule))
                         backlog [])
  /\ ~ (forall sendNow serviceName payload w1,
           isObject payload = true ->
           pendingOutgoingMessages_ (chan w1) <> [] ->
           send sendNow serviceName payload w1
           = Returned (buffering [envelope serviceName payload] w1)).
Proof.
  split; [reflexivity |]. split; [reflexivity |]. intros H.
  specialize (H (sendNow_ 0) "late" emptyObject
                (dispose (buffering backlog constructor)) eq_refl).
  assert (pendingOutgoingMessages_
            (chan (dispose (buffering backlog constructor))) <> []) as Hne
      by discriminate.
  specialize (H Hne). vm_compute in H. discriminate H.
Qed.


(** ** Ordering of buffered and later messages *)

(** C1, as amended.  On a channel that is not disposed, has no module and
    an empty buffer, N [send] calls of object payloads are buffered in the
    order of the calls and nothing is posted.  Whatever the module then
    does, [onModuleCreated] posts these messages in that order and nothing
    ahead of them or between them: what the module has been posted is an
    initial part of the N messages followed by what was sent during the
    drain.  All N are posted, first and in order, whenever [onModuleCreated]
    returns, and whenever the module reacts to a delivery only with [send]s
    of object payloads (so that it neither disposes the channel nor throws
    during the drain); whatever else the module is posted afterwards, by any
    operation, comes after them.  When [onModuleCreated] returns the buffer
    is empty, and for a module that never calls back it returns having
    posted exactly the N messages. *)
Theorem buffered_sends_reach_module_first
    parse (sends : list (string * Value)) m w steps depth :
  Forall (fun s => isObject s.2 = true) sends ->
  googleSmartCardModule_ (chan w) = None ->
  isDisposed w = false ->
  pendingOutgoingMessages_ (chan w) = [] ->
  length sends <= steps ->
  let messages := map (fun s => envelope s.1 s.2) sends in
  let before :=
    runOps parse steps depth (map (fun s => OpSend s.1 s.2) sends) w in
  let o := onModuleCreated steps depth m before in
  posted before = posted w
  /\ pendingOutgoingMessages_ (chan before) = messages
  /\ (exists k reentrant,
        posted (stateOf o) = posted w ++ take k (messages ++ reentrant))
  /\ (forall w',
        o = Returned w' ->
        pendingOutgoingMessages_ (chan w') = []
        /\ (exists reentrant, posted w' = posted w ++ messages ++ reentrant)
        /\ forall later, exists rest,
             posted (runOps parse steps depth later w')
             = posted w ++ messages ++ rest)
  /\ (sendsOnly m ->
      exists reentrant, posted (stateOf o) = posted w ++ messages ++ reentrant)
  /\ (quiet m ->
      length sends < steps ->
      exists w', o = Returned w' /\ posted w' = posted w ++ messages).
Proof.
  intros Hobj Hm Hdisp Hempty Hsteps messages before o.
  assert (before = buffering messages w) as Hbefore
      by (apply sends_before_module; auto).
  assert (pendingOutgoingMessages_ (chan before) = messages) as Hbuf
      by (rewrite Hbefore; simpl; now rewrite Hempty).
  assert (isDisposed before = false) as Hdisp' by now rewrite Hbefore.
  assert (posted before = posted w) as Hpost by now rewrite Hbefore.
  destruct (stateOf_onModuleCreated steps depth m before) as [Hsame _].
  fold o in Hsame.
  destruct (drain_posts_buffer steps depth 0 (withChan (setModule m) before))
    as (k & Hk & Hposted & Hend).
  pose proof (drain_keeps_buffer steps depth 0 (withChan (setModule m) before))
    as [appended Hfinal].
  set (d := drain steps depth 0 (withChan (setModule m) before)) in *.
  simpl in Hfinal. rewrite Hbuf in Hfinal.
  rewrite drop_0, Hfinal in Hposted. simpl in Hposted.
  rewrite Hpost in Hposted.
  assert (length messages = length sends) as Hlen
      by (unfold messages; now rewrite length_map).
  split; [exact Hpost |]. split; [exact Hbuf |].
  split; [exists k, appended; now rewrite Hsame |].
  split; [| split].
  - intros w' Hret.
    apply onModuleCreated_returned in Hret as (w0 & Hw0 & ->).
    fold d in Hw0. specialize (Hend w0 Hw0).
    rewrite Hw0 in Hposted, Hfinal. simpl in Hposted, Hfinal.
    rewrite Hfinal in Hend. rewrite take_ge in Hposted by lia.
    split; [reflexivity |].
    split; [exists appended; exact Hposted |].
    intros later.
    destruct (runOps_advances parse steps depth later (withChan clearPending w0))
      as ([more Hmore] & _).
    exists (appended ++ more). rewrite Hmore. simpl. rewrite Hposted.
    now rewrite <- !app_assoc.
  - intros Hsends.
    destruct (drain_sendsOnly m steps depth Hsends 0
                (withChan (setModule m) before))
      as (_ & _ & Hposted' & _); auto.
    fold d in Hposted'. rewrite drop_0, Hfinal in Hposted'.
    simpl in Hposted'.
    rewrite take_app, (take_ge messages) in Hposted' by lia.
    eexists. rewrite Hsame, Hposted', Hpost. reflexivity.
  - intros Hquiet Hlt. unfold o, onModuleCreated.
    rewrite (drain_quiet m) by (simpl; auto; rewrite Hbuf; lia).
    simpl. eexists. split; [reflexivity |]. simpl.
    now rewrite Hbuf, Hpost.
Qed.

Lemma buffered_sends_reach_module_first_witness :
  Forall (fun s : string * Value => isObject s.2 = true)
         [("ping", emptyObject); ("pong", emptyObject)]
  /\ googleSmartCardModule_ (chan constructor) = None
  /\ isDisposed constructor = false
  /\ pendingOutgoingMessages_ (chan constructor) = []
  /\ 2 <= 9
  /\ sendsOnly replyingModule
  /\ exists reentrant,
       posted (stateOf (onModuleCreated 9 0 replyingModule
                (runOps TypedMessage.parseTypedMessage 9 0
                        [OpSend "ping" emptyObject; OpSend "pong" emptyObject]
                        constructor)))
       = [envelope "ping" emptyObject; envelope "pong" emptyObject] ++ reentrant.
Proof.
  assert (Forall (fun s : string * Value => isObject s.2 = true)
                 [("ping", emptyObject); ("pong", emptyObject)]) as Hobj
      by (repeat constructor).
  assert (2 <= 9) as Hle by lia.
  split; [exact Hobj |]. split; [reflexivity |]. split; [reflexivity |].
  split; [reflexivity |]. split; [exact Hle |].
  split; [exact replyingModule_sendsOnly |].
  exact (proj1 (proj2 (proj2 (proj2 (proj2
           (buffered_sends_reach_module_first
              TypedMessage.parseTypedMessage
              [("ping", emptyObject); ("pong", emptyObject)]
              replyingModule constructor 9 0
              Hobj eq_refl eq_refl eq_refl Hle)))))
           replyingModule_sendsOnly).
Defined.

(** C1, as stated, fails for a module that disposes the channel when it is
    posted the first message: of two buffered messages only the first is
    delivered, [onModuleCreated] throws at the second, and no later call
    other than another [onModuleCreated] delivers it. *)
Lemma buffered_send_lost_when_module_disposes :
  let before :=
    runOps TypedMessage.parseTypedMessage 9 0
           [OpSend "ping" emptyObject; OpSend "pong" emptyObject] constructor in
  let after :=
    mkWorld (mkChannel true [] backlog None) [envelope "ping" emptyObject] [] in
  pendingOutgoingMessages_ (chan before) = backlog
  /\ onModuleCreated 9 0 disposingModule before = Threw TypeError after
  /\ (forall later,
        Forall (fun op => isOnModuleCreated op = false) later ->
        posted (runOps TypedMessage.parseTypedMessage 9 0 later after)
        = [envelope "ping" emptyObject])
  /\ ~ (forall m, exists reentrant,
          posted (stateOf (onModuleCreated 9 0 m before))
          = backlog ++ reentrant).
Proof.
  intros before after.
  split; [reflexivity |]. split; [reflexivity |]. split.
  - intros later Hlater.
    now destruct (nonempty_buffer_blocks TypedMessage.parseTypedMessage 9 0
                    later after ltac:(discriminate) Hlater) as [-> _].
  - intros H. destruct (H disposingModule) as [reentrant Hr].
    vm_compute in Hr. discriminate Hr.
Qed.


(** ** When [onModuleCreated] throws *)

Lemma rudeModule_throws :
  onModuleCreated 3 0 rudeModule (buffering backlog constructor)
  = Threw CheckFailure
      (mkWorld (mkChannel false [] backlog (Some rudeModule))
               [envelope "ping" emptyObject] []).
Proof. reflexivity. Qed.

(** X1.  When [onModuleCreated] throws, the loop has not reached the
    assignment that empties the buffer: the buffer is left non-empty, it
    still begins with what was buffered before, and from then on no [send],
    [dispose] or inbound message posts anything; every later [send] is
    dropped or appended to a buffer that nothing drains. *)
Theorem thrown_drain_leaves_channel_stuck
    parse steps depth m w e w' later :
  onModuleCreated steps depth m w = Threw e w' ->
  Forall (fun op => isOnModuleCreated op = false) later ->
  pendingOutgoingMessages_ (chan w') <> []
  /\ pendingOutgoingMessages_ (chan w)
     `prefix_of` pendingOutgoingMessages_ (chan w')
  /\ posted (runOps parse steps depth later w') = posted w'
  /\ pendingOutgoingMessages_ (chan w')
     `prefix_of`
     pendingOutgoingMessages_ (chan (runOps parse steps depth later w')).
Proof.
  intros Hthrew Hlater.
  destruct (onModuleCreated_threw steps depth m w e w' Hthrew)
    as (first & rest & more & Hbuf & Hpre & _).
  assert (pendingOutgoingMessages_ (chan w') <> []) as Hne
      by (rewrite Hbuf; discriminate).
  split; [exact Hne |]. split; [exact Hpre |].
  now apply nonempty_buffer_blocks.
Qed.

Lemma thrown_drain_leaves_channel_stuck_witness :
  onModuleCreated 3 0 rudeModule (buffering backlog constructor)
  = Threw CheckFailure
      (mkWorld (mkChannel false [] backlog (Some rudeModule))
               [envelope "ping" emptyObject] [])
  /\ Forall (fun op => isOnModuleCreated op = false)
            [OpSend "next" emptyObject; OpSend "last" emptyObject]
  /\ posted (runOps TypedMessage.parseTypedMessage 3 0
               [OpSend "next" emptyObject; OpSend "last" emptyObject]
               (mkWorld (mkChannel false [] backlog (Some rudeModule))
                        [envelope "ping" emptyObject] []))
     = [envelope "ping" emptyObject].
Proof.
  assert (Forall (fun op => isOnModuleCreated op = false)
                 [OpSend "next" emptyObject; OpSend "last" emptyObject])
    as Hlater by (repeat constructor).
  split; [exact rudeModule_throws |]. split; [exact Hlater |].
  exact (proj1 (proj2 (proj2
           (thrown_drain_leaves_channel_stuck
              TypedMessage.parseTypedMessage 3 0 rudeModule
              (buffering backlog constructor) CheckFailure _
              [OpSend "next" emptyObject; OpSend "last" emptyObject]
              rudeModule_throws Hlater)))).
Defined.

(** X2.  [onModuleCreated] cannot be retried after it threw: the first
    buffered message had been posted before the throw and is still in the
    buffer, so a second [onModuleCreated], here with a module that never
    calls back, posts the whole buffer from its start and the first message
    reaches a module twice. *)
Theorem retry_after_throw_posts_again
    steps depth m w e w' steps' depth' m' :
  onModuleCreated steps depth m w = Threw e w' ->
  quiet m' ->
  length (pendingOutgoingMessages_ (chan w')) < steps' ->
  exists first rest more,
    pendingOutgoingMessages_ (chan w') = first :: rest
    /\ posted w' = posted w ++ first :: more
    /\ onModuleCreated steps' depth' m' w'
       = Returned (mkWorld (clearPending (setModule m' (chan w')))
                           (posted w ++ first :: more ++ first :: rest)
                           (delivered w')).
Proof.
  intros Hthrew Hquiet Hsteps.
  destruct (onModuleCreated_threw steps depth m w e w' Hthrew)
    as (first & rest & more & Hbuf & _ & Hposted).
  exists first, rest, more. split; [exact Hbuf |]. split; [exact Hposted |].
  rewrite onModuleCreated_ignores_disposed by auto.
  rewrite Hposted, Hbuf. now rewrite <- app_assoc.
Qed.

Lemma retry_after_throw_posts_again_witness :
  onModuleCreated 3 0 rudeModule (buffering backlog constructor)
  = Threw CheckFailure
      (mkWorld (mkChannel false [] backlog (Some rudeModule))
               [envelope "ping" emptyObject] [])
  /\ quiet silentModule
  /\ 2 < 3
  /\ exists first rest more,
       backlog = first :: rest
       /\ [envelope "ping" emptyObject] = [] ++ first :: more
       /\ onModuleCreated 3 0 silentModule
            (mkWorld (mkChannel false [] backlog (Some rudeModule))
                     [envelope "ping" emptyObject] [])
          = Returned
              (mkWorld (mkChannel false [] [] (Some silentModule))
                       ([] ++ first :: more ++ first :: rest) []).
Proof.
  assert (2 < 3) as Hlt by lia.
  split; [exact rudeModule_throws |]. split; [exact silentModule_quiet |].
  split; [exact Hlt |].
  exact (retry_after_throw_posts_again
           3 0 rudeModule (buffering backlog constructor) CheckFailure _
           3 0 silentModule rudeModule_throws silentModule_quiet Hlt).
Defined.

(** X3.  Once [onModuleCreated] has returned, calling it again posts nothing
    and changes nothing but the module: what was buffered has been posted
    once and is gone. *)
Theorem second_onModuleCreated_posts_nothing
    steps depth m w w' steps' depth' m' :
  onModuleCreated steps depth m w = Returned w' ->
  0 < steps' ->
  onModuleCreated steps' depth' m' w' = Returned (withChan (setModule m') w')
  /\ posted (withChan (setModule m') w') = posted w'
  /\ pendingOutgoingMessages_ (chan (withChan (setModule m') w')) = [].
Proof.
  intros Hret Hsteps.
  apply onModuleCreated_returned in Hret as (w0 & _ & ->).
  destruct steps' as [| steps']; [lia |].
  repeat split.
Qed.

Lemma second_onModuleCreated_posts_nothing_witness :
  onModuleCreated 3 0 silentModule (buffering backlog constructor)
  = Returned (mkWorld (mkChannel false [] [] (Some silentModule)) backlog [])
  /\ 0 < 1
  /\ onModuleCreated 1 0 replyingModule
       (mkWorld (mkChannel false [] [] (Some silentModule)) backlog [])
     = Returned (mkWorld (mkChannel false [] [] (Some replyingModule))
                         backlog []).
Proof.
  assert (0 < 1) as Hlt by lia.
  split; [reflexivity |]. split; [exact Hlt |].
  exact (proj1 (second_onModuleCreated_posts_nothing
                  3 0 silentModule (buffering backlog constructor) _
                  1 0 replyingModule eq_refl Hlt)).
Defined.


(** ** Sends around [onModuleCreated], for a module that never calls back *)

Lemma sends_then parse steps depth (sends : list (string * Value)) rest w :
  Forall (fun s => isObject s.2 = true) sends ->
  googleSmartCardModule_ (chan w) = None ->
  isDisposed w = false ->
  runOps parse steps depth (sendOps sends ++ rest) w
  = runOps parse steps depth rest (buffering (envelopes sends) w).
Proof.
  intros Hsends. revert w.
  induction Hsends as [| [serviceName payload] sends Hobj _ IH];
    intros w Hm Hdisp.
  - simpl. now rewrite buffering_nil.
  - cbn [sendOps envelopes map app runOps runOp fst snd].
    rewrite send_buffers by auto.
    fold (sendOps sends). rewrite IH by auto.
    fold (envelopes sends). now rewrite buffering_app.
Qed.

Lemma sends_when_ready parse steps depth m (sends : list (string * Value)) w :
  Forall (fun s => isObject s.2 = true) sends ->
  quiet m ->
  ready m w ->
  runOps parse steps depth (sendOps sends) w
  = mkWorld (chan w) (posted w ++ envelopes sends) (delivered w).
Proof.
  intros Hsends Hquiet. revert w.
  induction Hsends as [| [serviceName payload] sends Hobj _ IH];
    intros w (Hdisp & Hm & Hbuf).
  - simpl. rewrite app_nil_r. now destruct w.
  - cbn [sendOps envelopes map runOps runOp fst snd].
    rewrite (send_direct _ _ _ _ m) by auto.
    rewrite (sendNow_quiet depth _ w m) by auto.
    fold (sendOps sends). rewrite IH by (repeat split; auto).
    fold (envelopes sends). simpl. now rewrite <- app_assoc.
Qed.

(** X4.  A module that never calls back is posted every message ever sent,
    once, in the order of the [send] calls: those sent before
    [onModuleCreated], then those sent after it, and the buffer is empty at
    the end. *)
Theorem quiet_module_is_posted_everything_in_send_order
    parse steps depth (early late : list (string * Value)) m w :
  Forall (fun s => isObject s.2 = true) early ->
  Forall (fun s => isObject s.2 = true) late ->
  quiet m ->
  googleSmartCardModule_ (chan w) = None ->
  isDisposed w = false ->
  pendingOutgoingMessages_ (chan w) = [] ->
  length early < steps ->
  runOps parse steps depth
         (sendOps early ++ OpOnModuleCreated m :: sendOps late) w
  = mkWorld (clearPending (setModule m (chan w)))
            (posted w ++ envelopes early ++ envelopes late)
            (delivered w).
Proof.
  intros Hearly Hlate Hquiet Hm Hdisp Hbuf Hsteps.
  rewrite sends_then by auto. cbn [runOps runOp].
  rewrite onModuleCreated_ignores_disposed
    by (auto; simpl; rewrite Hbuf; unfold envelopes; simpl;
        rewrite length_map; lia).
  rewrite (sends_when_ready parse steps depth m) by (repeat split; auto).
  simpl. rewrite Hbuf. simpl. now rewrite <- app_assoc.
Qed.

Lemma quiet_module_is_posted_everything_in_send_order_witness :
  Forall (fun s : string * Value => isObject s.2 = true)
         [("ping", emptyObject); ("pong", emptyObject)]
  /\ Forall (fun s : string * Value => isObject s.2 = true)
            [("late", emptyObject)]
  /\ quiet silentModule
  /\ 2 < 3
  /\ posted (runOps TypedMessage.parseTypedMessage 3 0
               [OpSend "ping" emptyObject; OpSend "pong" emptyObject;
                OpOnModuleCreated silentModule; OpSend "late" emptyObject]
               constructor)
     = [envelope "ping" emptyObject; envelope "pong" emptyObject;
        envelope "late" emptyObject].
Proof.
  assert (Forall (fun s : string * Value => isObject s.2 = true)
                 [("ping", emptyObject); ("pong", emptyObject)]) as Hearly
      by (repeat constructor).
  assert (Forall (fun s : string * Value => isObject s.2 = true)
                 [("late", emptyObject)]) as Hlate by (repeat constructor).
  assert (2 < 3) as Hlt by lia.
  split; [exact Hearly |]. split; [exact Hlate |].
  split; [exact silentModule_quiet |]. split; [exact Hlt |].
  exact (f_equal posted
           (quiet_module_is_posted_everything_in_send_order
              TypedMessage.parseTypedMessage 3 0
              [("ping", emptyObject); ("pong", emptyObject)]
              [("late", emptyObject)] silentModule constructor
              Hearly Hlate silentModule_quiet eq_refl eq_refl eq_refl Hlt)).
Defined.

(** ** A channel that is ready *)

Section Ready.

Variable m : GoogleSmartCardModule.
Hypothesis m_sendsOnly : sendsOnly m.

Lemma calls_keep_ready sendNow cs w :
  keepsReady m sendNow ->
  forallb objectSend cs = true ->
  ready m w ->
  (forall e w', calls sendNow cs w <> Threw e w')
  /\ chan (stateOf (calls sendNow cs w)) = chan w
  /\ posted w `prefix_of` posted (stateOf (calls sendNow cs w))
  /\ delivered (stateOf (calls sendNow cs w)) = delivered w.
Proof.
  intros Hkeeps. revert w.
  induction cs as [| c cs IH]; intros w Hcs Hready.
  - simpl. split; [discriminate |]. split; [reflexivity |].
    split; reflexivity.
  - simpl in Hcs. apply andb_true_iff in Hcs as [Hc Hcs].
    destruct c as [serviceName payload |]; simpl in Hc; [| discriminate].
    cbn [calls call]. destruct Hready as (Hdisp & Hm & Hbuf).
    rewrite (send_direct _ _ _ _ m) by auto.
    destruct (Hkeeps (envelope serviceName payload) w)
      as (Hthrow & Hchan & Hposted & Hdel); [repeat split; auto |].
    destruct (sendNow (envelope serviceName payload) w) as [w1 | e w1 | w1];
      cbn [bind stateOf] in *.
    + assert (ready m w1) as Hready1
          by (unfold ready, isDisposed; rewrite Hchan; auto).
      destruct (IH w1 Hcs Hready1) as (Ht & Hc1 & Hp1 & Hd1).
      split; [exact Ht |]. split; [congruence |].
      split; [etransitivity; eauto | congruence].
    + exfalso. now apply (Hthrow e w1).
    + split; [discriminate |]. split; [exact Hchan |].
      split; [exact Hposted | exact Hdel].
Qed.

Lemma sendNow_ready depth message w :
  ready m w ->
  (forall e w', sendNow_ depth message w <> Threw e w')
  /\ chan (stateOf (sendNow_ depth message w)) = chan w
  /\ (posted w ++ [message])
     `prefix_of` posted (stateOf (sendNow_ depth message w))
  /\ delivered (stateOf (sendNow_ depth message w)) = delivered w.
Proof.
  revert message w. induction depth as [| depth IH]; intros message w Hready.
  - destruct Hready as (Hdisp & Hm & Hbuf). simpl. rewrite Hm.
    apply (calls_keep_ready (fun _ w' => Diverged w')); auto.
    + intros msg w1 _. simpl. split; [discriminate |].
      split; [reflexivity |]. split; reflexivity.
    + split; [exact Hdisp |]. split; [exact Hm | exact Hbuf].
  - assert (keepsReady m (sendNow_ depth)) as Hkeeps.
    { intros msg w1 Hr. destruct (IH msg w1 Hr) as (Ht & Hc & Hp & Hd).
      split; [exact Ht |]. split; [exact Hc |]. split; [| exact Hd].
      eapply prefix_app_l. exact Hp. }
    destruct Hready as (Hdisp & Hm & Hbuf). simpl. rewrite Hm.
    apply (calls_keep_ready (sendNow_ depth)); auto.
    split; [exact Hdisp |]. split; [exact Hm | exact Hbuf].
Qed.

End Ready.

(** One [send] on a ready channel. *)
Lemma send_when_ready depth m serviceName payload w :
  sendsOnly m ->
  ready m w ->
  isObject payload = true ->
  (forall e w',
      send (sendNow_ depth) serviceName payload w <> Threw e w')
  /\ chan (stateOf (send (sendNow_ depth) serviceName payload w)) = chan w
  /\ (posted w ++ [envelope serviceName payload])
     `prefix_of`
     posted (stateOf (send (sendNow_ depth) serviceName payload w)).
Proof.
  intros Hm Hready Hobj. pose proof Hready as (Hdisp & Hmod & Hbuf).
  rewrite (send_direct _ _ _ _ m) by auto.
  destruct (sendNow_ready m Hm depth (envelope serviceName payload) w Hready)
    as (Ht & Hc & Hp & _). auto.
Qed.

(** Any number of sends on a ready channel. *)
Lemma sends_keep_channel parse steps depth m (sends : list (string * Value)) w :
  sendsOnly m ->
  Forall (fun s => isObject s.2 = true) sends ->
  ready m w ->
  chan (runOps parse steps depth (sendOps sends) w) = chan w.
Proof.
  intros Hm Hsends. revert w.
  induction Hsends as [| s sends Hs _ IH]; intros w Hready; [reflexivity |].
  cbn [sendOps map runOps runOp]. fold (sendOps sends).
  destruct (send_when_ready depth m s.1 s.2 w Hm Hready Hs) as (Ht & Hc & _).
  destruct (send (sendNow_ depth) s.1 s.2 w) as [w1 | e w1 | w1];
    cbn [stateOf] in *.
  - rewrite IH; [exact Hc |].
    unfold ready, isDisposed. rewrite Hc. exact Hready.
  - exfalso. now apply (Ht e w1).
  - exact Hc.
Qed.

(** X5.  On a ready channel whose module only sends from inside
    [postMessage], a [send] goes straight to the module and is never
    buffered: the message is posted before anything the module sends in
    reaction, the reactions are delivered nested in the same way, [send] does
    not throw, and the channel (flag, buffer, module, registrations) is as
    before, so it is still ready after any number of such sends. *)
Theorem ready_channel_sends_directly
    parse steps depth m serviceName payload
    (sends : list (string * Value)) w :
  sendsOnly m ->
  ready m w ->
  isObject payload = true ->
  Forall (fun s => isObject s.2 = true) sends ->
  (forall e w',
      send (sendNow_ depth) serviceName payload w <> Threw e w')
  /\ chan (stateOf (send (sendNow_ depth) serviceName payload w)) = chan w
  /\ (posted w ++ [envelope serviceName payload])
     `prefix_of`
     posted (stateOf (send (sendNow_ depth) serviceName payload w))
  /\ chan (runOps parse steps depth (sendOps sends) w) = chan w
  /\ ready m (runOps parse steps depth (sendOps sends) w).
Proof.
  intros Hm Hready Hobj Hsends.
  destruct (send_when_ready depth m serviceName payload w Hm Hready Hobj)
    as (Ht & Hc & Hp).
  split; [exact Ht |]. split; [exact Hc |]. split; [exact Hp |].
  pose proof (sends_keep_channel parse steps depth m sends w Hm Hsends Hready)
    as Hchan.
  split; [exact Hchan |].
  unfold ready, isDisposed. rewrite Hchan. exact Hready.
Qed.

Lemma ready_channel_sends_directly_witness :
  sendsOnly replyingModule
  /\ ready replyingModule
           (mkWorld (mkChannel false [] [] (Some replyingModule)) [] [])
  /\ isObject emptyObject = true
  /\ Forall (fun s : string * Value => isObject s.2 = true)
            [("ping", emptyObject)]
  /\ send (sendNow_ 3) "ping" emptyObject
          (mkWorld (mkChannel false [] [] (Some replyingModule)) [] [])
     = Returned
         (mkWorld (mkChannel false [] [] (Some replyingModule))
                  [envelope "ping" emptyObject; envelope "reply" emptyObject;
                   envelope "reply" emptyObject]
                  [])
  /\ chan (stateOf (send (sendNow_ 3) "ping" emptyObject
                         (mkWorld (mkChannel false [] [] (Some replyingModule))
                                  [] [])))
     = mkChannel false [] [] (Some replyingModule).
Proof.
  assert (ready replyingModule
                (mkWorld (mkChannel false [] [] (Some replyingModule)) [] []))
    as Hready by (repeat split).
  assert (Forall (fun s : string * Value => isObject s.2 = true)
                 [("ping", emptyObject)]) as Hsends by (repeat constructor).
  split; [exact replyingModule_sendsOnly |]. split; [exact Hready |].
  split; [reflexivity |]. split; [exact Hsends |]. split; [reflexivity |].
  exact (proj1 (proj2 (ready_channel_sends_directly
                         TypedMessage.parseTypedMessage 3 3 replyingModule
                         "ping" emptyObject [("ping", emptyObject)] _
                         replyingModule_sendsOnly Hready eq_refl Hsends))).
Defined.


(** X9.  On a channel that is not disposed, when [onModuleCreated] returns
    for a module that only sends from inside [postMessage], the channel is
    ready: it holds the module, its buffer is empty and its registrations are
    those it had; and from then on nothing is buffered any more, however
    many messages are sent. *)
Theorem onModuleCreated_makes_ready
    parse steps depth m w w' (sends : list (string * Value)) :
  sendsOnly m ->
  isDisposed w = false ->
  onModuleCreated steps depth m w = Returned w' ->
  Forall (fun s => isObject s.2 = true) sends ->
  ready m w'
  /\ services_ (chan w') = services_ (chan w)
  /\ delivered w' = delivered w
  /\ pendingOutgoingMessages_
       (chan (runOps parse steps depth (sendOps sends) w')) = []
  /\ posted w' `prefix_of` posted (runOps parse steps depth (sendOps sends) w').
Proof.
  intros Hm Hdisp Hret Hsends.
  apply onModuleCreated_returned in Hret as (w0 & Hw0 & ->).
  destruct (drain_sendsOnly m steps depth Hm 0 (withChan (setModule m) w))
    as ([appended Hchan] & Hdel & _); auto.
  rewrite Hw0 in Hchan, Hdel. simpl in Hchan, Hdel.
  assert (ready m (withChan clearPending w0)) as Hready.
  { unfold ready, isDisposed. simpl. rewrite Hchan. simpl. auto. }
  split; [exact Hready |].
  split; [simpl; now rewrite Hchan |]. split; [exact Hdel |].
  rewrite (sends_keep_channel parse steps depth m) by auto.
  split; [reflexivity |]. apply runOps_advances.
Qed.

Lemma onModuleCreated_makes_ready_witness :
  sendsOnly replyingModule
  /\ isDisposed (buffering backlog constructor) = false
  /\ onModuleCreated 9 0 replyingModule (buffering backlog constructor)
     = Returned
         (mkWorld (mkChannel false [] [] (Some replyingModule))
                  (backlog ++ [envelope "reply" emptyObject;
                               envelope "reply" emptyObject]) [])
  /\ Forall (fun s : string * Value => isObject s.2 = true)
            [("next", emptyObject)]
  /\ ready replyingModule
           (mkWorld (mkChannel false [] [] (Some replyingModule))
                    (backlog ++ [envelope "reply" emptyObject;
                                 envelope "reply" emptyObject]) []).
Proof.
  assert (Forall (fun s : string * Value => isObject s.2 = true)
                 [("next", emptyObject)]) as Hsends by (repeat constructor).
  split; [exact replyingModule_sendsOnly |]. split; [reflexivity |].
  split; [reflexivity |]. split; [exact Hsends |].
  exact (proj1 (onModuleCreated_makes_ready
                  TypedMessage.parseTypedMessage 9 0 replyingModule
                  (buffering backlog constructor) _ [("next", emptyObject)]
                  replyingModule_sendsOnly eq_refl eq_refl Hsends)).
Defined.


(** ** A module that disposes the channel from inside [postMessage] *)






End EmscriptenModuleMessageChannelFacts.

(** * Properties of the loader *)

Module EmscriptenModuleFacts.

Import EmscriptenModule.

(** ** What [dispose] leaves *)

Lemma dispose_disposed em : disposed_ (dispose em) = true.
Proof.
  unfold dispose. destruct (disposed_ em) eqn:E; [exact E | reflexivity].
Qed.

Lemma dispose_started em : started (dispose em) = started em.
Proof. unfold dispose. now destruct (disposed_ em). Qed.

Lemma dispose_channel em :
  consistent em ->
  EmscriptenModuleMessageChannel.isDisposed (messageChannel (dispose em)) = true
  /\ EmscriptenModuleMessageChannel.posted (messageChannel (dispose em))
     = EmscriptenModuleMessageChannel.posted (messageChannel em)
  /\ EmscriptenModuleMessageChannel.pendingOutgoingMessages_
       (EmscriptenModuleMessageChannel.chan (messageChannel (dispose em)))
     = EmscriptenModuleMessageChannel.pendingOutgoingMessages_
         (EmscriptenModuleMessageChannel.chan (messageChannel em)).
Proof.
  intros Hcons. unfold dispose. destruct (disposed_ em) eqn:E.
  - split; [now apply Hcons | now split].
  - simpl.
    split; [apply EmscriptenModuleMessageChannelFacts.dispose_isDisposed |].
    split; [apply EmscriptenModuleMessageChannelFacts.dispose_posted
           | apply EmscriptenModuleMessageChannelFacts.dispose_pending].
Qed.

(** ** The loader only moves forward *)

#[local] Instance follows_refl : Reflexive follows.
Proof.
  intros em. unfold follows. split; [auto |]. split; [auto |].
  split; [reflexivity |].
  apply EmscriptenModuleMessageChannelFacts.advances_refl.
Qed.

#[local] Instance follows_trans : Transitive follows.
Proof.
  intros a b c (Hd & Hc & Hs & Ha) (Hd' & Hc' & Hs' & Ha').
  unfold follows. split; [auto |]. split; [auto |].
  split; [congruence |].
  exact (EmscriptenModuleMessageChannelFacts.advances_trans _ _ _ Ha Ha').
Qed.

Lemma follows_bind (o : Outcome t) k em :
  follows em (stateOf o) ->
  (forall em', follows em' (stateOf (k em'))) ->
  follows em (stateOf (bind o k)).
Proof.
  intros Ho Hk. destruct o as [em' | e em' | em']; simpl in *; auto.
  now transitivity em'.
Qed.

Lemma follows_dispose em : follows em (dispose em).
Proof.
  unfold follows.
  split; [intros _; apply dispose_disposed |].
  split; [intros H _; now apply dispose_channel |].
  split; [apply dispose_started |].
  unfold dispose. destruct (disposed_ em); simpl;
    [apply EmscriptenModuleMessageChannelFacts.advances_refl
    | apply EmscriptenModuleMessageChannelFacts.advances_dispose].
Qed.

Lemma follows_withChannel w em :
  EmscriptenModuleMessageChannel.advances (messageChannel em) w ->
  follows em (withChannel w em).
Proof.
  intros Hadv. unfold follows, consistent. simpl.
  split; [auto |]. split; [| split; [reflexivity | exact Hadv]].
  intros Hcons E. apply Hadv. auto.
Qed.

Lemma runTask_follows depth task em :
  follows em (stateOf (runTask depth task em)).
Proof.
  destruct task as [serviceName payload |]; simpl; [| apply follows_dispose].
  pose proof (EmscriptenModuleMessageChannelFacts.send_advances
                (EmscriptenModuleMessageChannel.sendNow_ depth)
                (EmscriptenModuleMessageChannelFacts.sendNow_advances depth)
                serviceName payload (messageChannel em)) as Hadv.
  destruct (EmscriptenModuleMessageChannel.send _ _ _ _); simpl in *;
    now apply follows_withChannel.
Qed.

Lemma runTasks_follows depth tasks em :
  follows em (stateOf (runTasks depth tasks em)).
Proof.
  revert em. induction tasks as [| task tasks IH]; intros em; simpl;
    [reflexivity |].
  apply follows_bind; [apply runTask_follows | apply IH].
Qed.

(** While the channel has no module, the tasks return, post nothing and
    hand the channel no module. *)
Lemma runTasks_without_module depth tasks em :
  EmscriptenModuleMessageChannel.googleSmartCardModule_
    (EmscriptenModuleMessageChannel.chan (messageChannel em)) = None ->
  exists em',
    runTasks depth tasks em = Returned em'
    /\ EmscriptenModuleMessageChannel.googleSmartCardModule_
         (EmscriptenModuleMessageChannel.chan (messageChannel em')) = None
    /\ EmscriptenModuleMessageChannel.posted (messageChannel em')
       = EmscriptenModuleMessageChannel.posted (messageChannel em).
Proof.
  revert em. induction tasks as [| task tasks IH]; intros em Hnone; simpl;
    [eauto |].
  assert (exists em1,
             runTask depth task em = Returned em1
             /\ EmscriptenModuleMessageChannel.googleSmartCardModule_
                  (EmscriptenModuleMessageChannel.chan (messageChannel em1)) = None
             /\ EmscriptenModuleMessageChannel.posted (messageChannel em1)
                = EmscriptenModuleMessageChannel.posted (messageChannel em))
    as (em1 & -> & Hnone1 & Hposted1).
  { destruct task as [serviceName payload |]; simpl.
    - destruct (isObject payload) eqn:Hobj;
        [| rewrite EmscriptenModuleMessageChannelFacts.send_non_object by auto;
           eauto].
      destruct (EmscriptenModuleMessageChannel.isDisposed (messageChannel em))
        eqn:Hdisp.
      + rewrite EmscriptenModuleMessageChannelFacts.send_disposed by auto.
        eauto.
      + rewrite EmscriptenModuleMessageChannelFacts.send_buffers by auto.
        eauto.
    - eexists. split; [reflexivity |]. unfold dispose.
      destruct (disposed_ em); [auto |]. simpl.
      rewrite EmscriptenModuleMessageChannelFacts.dispose_posted.
      split; [| reflexivity].
      unfold EmscriptenModuleMessageChannel.dispose.
      now destruct (EmscriptenModuleMessageChannel.isDisposed _). }
  simpl. destruct (IH em1 Hnone1) as (em' & -> & Hnone' & Hposted').
  exists em'. rewrite Hposted', Hposted1. auto.
Qed.

(** ** What [load_] leaves *)

(** However [load_] ends: a loader that was disposed is still disposed, a
    consistent loader is still consistent, the channel has only moved
    forward, and the steps started are an initial part of the load sequence,
    each started once. *)
Lemma load_progress steps depth host schedule em :
  let em' := stateOf (load_ steps depth host schedule em) in
  (disposed_ em = true -> disposed_ em' = true)
  /\ (consistent em -> consistent em')
  /\ EmscriptenModuleMessageChannel.advances
       (messageChannel em) (messageChannel em')
  /\ exists k, started em' = started em ++ take k loadSequence.
Proof.
  set (reach k c :=
         (disposed_ em = true -> disposed_ c = true)
         /\ (consistent em -> consistent c)
         /\ EmscriptenModuleMessageChannel.advances
              (messageChannel em) (messageChannel c)
         /\ started c = started em ++ take k loadSequence).
  assert (forall k c, reach k c ->
            (disposed_ em = true -> disposed_ c = true)
            /\ (consistent em -> consistent c)
            /\ EmscriptenModuleMessageChannel.advances
                 (messageChannel em) (messageChannel c)
            /\ exists k, started c = started em ++ take k loadSequence) as Hdone.
  { intros k c (? & ? & ? & ?). eauto 6. }
  assert (forall k c c', reach k c -> follows c c' -> reach k c') as Hstep.
  { intros k c c' (Hd & Hc & Ha & Hs) (Hd' & Hc' & Hs' & Ha').
    unfold reach. split; [auto |]. split; [auto |].
    split; [| congruence].
    exact (EmscriptenModuleMessageChannelFacts.advances_trans _ _ _ Ha Ha'). }
  assert (forall k c step,
            reach k c -> loadSequence !! k = Some step ->
            reach (S k) (start step c)) as Hnext.
  { intros k c step (Hd & Hc & Ha & Hs) Hk.
    unfold reach, start, consistent in *.
    cbn [started disposed_ messageChannel].
    split; [auto |]. split; [auto |]. split; [exact Ha |].
    rewrite Hs, <- app_assoc. f_equal. symmetry. now apply take_S_r. }
  assert (forall k c tasks (body : t -> Outcome t),
            reach k c ->
            (forall c', reach k c' ->
                        exists k', reach k' (stateOf (body c'))) ->
            exists k', reach k' (stateOf (bind (runTasks depth tasks c) body)))
    as Hawait.
  { intros k c tasks body Hc Hbody.
    pose proof (runTasks_follows depth tasks c) as Hf.
    destruct (runTasks depth tasks c) as [c' | e c' | c']; simpl in *;
      [apply Hbody | exists k | exists k]; eapply Hstep; eauto. }
  assert (reach 0 em) as H0.
  { unfold reach. split; [auto |]. split; [auto |].
    split; [apply EmscriptenModuleMessageChannelFacts.advances_refl |].
    simpl. now rewrite app_nil_r. }
  cut (exists k, reach k (stateOf (load_ steps depth host schedule em))).
  { intros [k Hk]. exact (Hdone k _ Hk). }
  unfold load_.
  apply (Hawait 1); [now apply (Hnext 0) |]. intros c1 H1.
  destruct (safeLoad host) as [[] |]; cbn [stateOf]; [| eauto].
  destruct (factoryFunction host) as [factory |]; cbn [stateOf]; [| eauto].
  apply (Hawait 2); [now apply (Hnext 1) |]. intros c2 H2.
  destruct factory as [api |]; cbn [stateOf]; [| eauto].
  destruct (GoogleSmartCardModule api) as [class |]; cbn [stateOf]; [| eauto].
  assert (reach 3 (start ConstructModule c2)) as H3 by now apply (Hnext 2).
  destruct class as [m |]; cbn [stateOf]; [| eauto].
  set (c4 := start WireChannel _).
  assert (reach 4 c4) as H4.
  { apply (Hstep 4 (start WireChannel (start ConstructModule c2)));
      [now apply (Hnext 3) |].
    unfold follows, consistent, c4. simpl.
    split; [auto |]. split; [auto |]. split; [reflexivity |].
    apply EmscriptenModuleMessageChannelFacts.advances_refl. }
  exists 4. eapply Hstep; [exact H4 |].
  pose proof (EmscriptenModuleMessageChannelFacts.onModuleCreated_advances
                steps depth m (messageChannel c4)) as Hadv.
  destruct (EmscriptenModuleMessageChannel.onModuleCreated _ _ _ _);
    simpl in *; now apply follows_withChannel.
Qed.

(** A failure of one of the first three steps makes [load_] throw; on a
    loader whose channel has no module yet, whatever ran during the awaits,
    and nothing was posted by then. *)
Lemma load_hostFails steps depth host schedule em :
  hostFails host = true ->
  EmscriptenModuleMessageChannel.googleSmartCardModule_
    (EmscriptenModuleMessageChannel.chan (messageChannel em)) = None ->
  exists e em',
    load_ steps depth host schedule em = Threw e em'
    /\ EmscriptenModuleMessageChannel.posted (messageChannel em')
       = EmscriptenModuleMessageChannel.posted (messageChannel em).
Proof.
  intros Hfails Hnone. unfold hostFails in Hfails. unfold load_.
  destruct (runTasks_without_module depth (whileLoadingSupportCode schedule)
              (start LoadSupportCode em) Hnone) as (c1 & -> & Hnone1 & Hp1).
  cbn [bind]. simpl in Hp1.
  destruct (safeLoad host) as [[] |]; [| eauto].
  destruct (factoryFunction host) as [factory |]; [| eauto].
  destruct (runTasks_without_module depth (whileRunningFactory schedule)
              (start RunFactory c1) Hnone1) as (c2 & -> & Hnone2 & Hp2).
  cbn [bind]. simpl in Hp2. rewrite Hp1 in Hp2.
  destruct factory as [api |]; [| eauto].
  destruct (GoogleSmartCardModule api) as [[m |] |]; [discriminate | eauto | eauto].
Qed.

(** ** Consistency *)

Lemma constructor_consistent : consistent constructor.
Proof. intros E. discriminate E. Qed.

Lemma dispose_consistent em : consistent em -> consistent (dispose em).
Proof. intros Hcons _. now apply dispose_channel. Qed.

Lemma startLoading_consistent steps depth host schedule em :
  consistent em ->
  consistent (stateOf (startLoading steps depth host schedule em)).
Proof.
  intros Hcons.
  destruct (load_progress steps depth host schedule em) as (_ & H & _).
  specialize (H Hcons). unfold startLoading.
  destruct (load_ steps depth host schedule em); simpl in *; auto.
  now apply dispose_consistent.
Qed.

(** ** A failed load *)

(** C6.  When a step of the load sequence fails, that is when [load_] throws,
    which it does when the support code does not load, the factory is missing
    or rejects, or the class is missing or cannot be constructed, whatever
    is sent or disposed during the awaits: [startLoading] disposes the
    loader, which disposes its channel; nothing is posted by the disposal,
    and what is still buffered stays unposted under every later sequence of
    calls on the channel that hands it no module; each step of the load
    sequence was started at most once, none again after the failure. *)
Theorem failed_load_disposes parse steps depth host schedule em :
  consistent em ->
  (hostFails host = true ->
   EmscriptenModuleMessageChannel.googleSmartCardModule_
     (EmscriptenModuleMessageChannel.chan (messageChannel em)) = None ->
   exists e em',
     load_ steps depth host schedule em = Threw e em'
     /\ EmscriptenModuleMessageChannel.posted (messageChannel em')
        = EmscriptenModuleMessageChannel.posted (messageChannel em))
  /\ (forall e em',
        load_ steps depth host schedule em = Threw e em' ->
        startLoading steps depth host schedule em = Returned (dispose em')
        /\ disposed_ (dispose em') = true
        /\ EmscriptenModuleMessageChannel.isDisposed
             (messageChannel (dispose em')) = true
        /\ EmscriptenModuleMessageChannel.posted (messageChannel (dispose em'))
           = EmscriptenModuleMessageChannel.posted (messageChannel em')
        /\ EmscriptenModuleMessageChannel.pendingOutgoingMessages_
             (EmscriptenModuleMessageChannel.chan
                (messageChannel (dispose em')))
           = EmscriptenModuleMessageChannel.pendingOutgoingMessages_
               (EmscriptenModuleMessageChannel.chan (messageChannel em'))
        /\ (forall later,
              Forall (fun op =>
                        EmscriptenModuleMessageChannel.isOnModuleCreated op
                        = false) later ->
              EmscriptenModuleMessageChannel.posted
                (EmscriptenModuleMessageChannel.runOps parse steps depth later
                   (messageChannel (dispose em')))
              = EmscriptenModuleMessageChannel.posted (messageChannel em'))
        /\ exists k, started (dispose em') = started em ++ take k loadSequence).
Proof.
  intros Hcons. split; [apply load_hostFails |].
  intros e em' Hload.
  destruct (load_progress steps depth host schedule em)
    as (_ & Hcons' & _ & Hsteps).
  rewrite Hload in Hcons', Hsteps. simpl in Hcons', Hsteps.
  specialize (Hcons' Hcons).
  destruct (dispose_channel em' Hcons') as (Hdisp & Hposted & Hpending).
  split; [unfold startLoading; now rewrite Hload |].
  split; [apply dispose_disposed |].
  split; [exact Hdisp |]. split; [exact Hposted |]. split; [exact Hpending |].
  split.
  - intros later Hlater.
    destruct (EmscriptenModuleMessageChannelFacts.disposed_silent
                parse steps depth later
                (messageChannel (dispose em')) Hdisp Hlater) as (_ & Hp & _).
    now rewrite Hp.
  - now rewrite dispose_started.
Qed.

Lemma failed_load_disposes_witness :
  consistent loaderWithBacklog
  /\ hostFails pageWithoutFactory = true
  /\ load_ 9 0 pageWithoutFactory disposedMeanwhile loaderWithBacklog
     = Threw CheckFailure
         (stateOf (load_ 9 0 pageWithoutFactory disposedMeanwhile
                         loaderWithBacklog))
  /\ startLoading 9 0 pageWithoutFactory disposedMeanwhile loaderWithBacklog
     = Returned
         (dispose (stateOf (load_ 9 0 pageWithoutFactory disposedMeanwhile
                                  loaderWithBacklog))).
Proof.
  assert (consistent loaderWithBacklog) as Hcons by (intros E; discriminate E).
  split; [exact Hcons |]. split; [reflexivity |]. split; [reflexivity |].
  exact (proj1 (proj2 (failed_load_disposes TypedMessage.parseTypedMessage 9 0
                         pageWithoutFactory disposedMeanwhile
                         loaderWithBacklog Hcons)
                  CheckFailure
                  (stateOf (load_ 9 0 pageWithoutFactory disposedMeanwhile
                                  loaderWithBacklog))
                  eq_refl)).
Defined.

(** ** Scenarios *)

(** On a page where every step works and nothing else runs meanwhile, a
    loader with two buffered messages ends with both posted, in order, and
    is not disposed. *)
Example working_load_flushes :
  exists em,
    startLoading 9 0 workingPage undisturbed loaderWithBacklog = Returned em
    /\ disposed_ em = false
    /\ started em = loadSequence
    /\ EmscriptenModuleMessageChannel.posted (messageChannel em)
       = EmscriptenModuleMessageChannel.backlog
    /\ EmscriptenModuleMessageChannel.pendingOutgoingMessages_
         (EmscriptenModuleMessageChannel.chan (messageChannel em)) = [].
Proof. eexists. split; [reflexivity |]. repeat split. Qed.

(** A new loader; two messages are sent while the support code loads, and
    the loader is disposed while the factory runs.  [load_] goes on, every
    step works, and the module is posted the two messages although the
    loader and its channel are disposed by then. *)
Example disposed_loader_still_flushes :
  exists em,
    startLoading 9 0 workingPage disposedMeanwhile constructor = Returned em
    /\ disposed_ em = true
    /\ EmscriptenModuleMessageChannel.isDisposed (messageChannel em) = true
    /\ EmscriptenModuleMessageChannel.posted (messageChannel em)
       = EmscriptenModuleMessageChannel.backlog.
Proof. eexists. split; [reflexivity |]. repeat split. Qed.


(** * Further properties of the loader *)

(** ** A load that succeeds *)

(** Sends made while the channel has no module are buffered, in order. *)
Lemma runTasks_sends depth (sends : list (string * Value)) em :
  Forall (fun s => isObject s.2 = true) sends ->
  EmscriptenModuleMessageChannel.googleSmartCardModule_
    (EmscriptenModuleMessageChannel.chan (messageChannel em)) = None ->
  EmscriptenModuleMessageChannel.isDisposed (messageChannel em) = false ->
  runTasks depth (sendTasks sends) em
  = Returned (withChannel
                (EmscriptenModuleMessageChannel.buffering
                   (EmscriptenModuleMessageChannel.envelopes sends)
                   (messageChannel em)) em).
Proof.
  intros Hsends. revert em.
  induction Hsends as [| [serviceName payload] sends Hobj _ IH];
    intros em Hnone Hdisp.
  - cbn [sendTasks map runTasks EmscriptenModuleMessageChannel.envelopes].
    rewrite EmscriptenModuleMessageChannelFacts.buffering_nil.
    now destruct em.
  - cbn [sendTasks map runTasks runTask fst snd].
    rewrite EmscriptenModuleMessageChannelFacts.send_buffers by auto.
    cbn [bind]. fold (sendTasks sends). rewrite IH by auto.
    unfold withChannel. cbn [messageChannel disposed_ googleSmartCardModule_
                             started].
    now rewrite EmscriptenModuleMessageChannelFacts.buffering_app.
Qed.

(** X7.  On a page where every step works, with a module that never calls
    back: whatever is sent on the channel while [load_] waits for the support
    code and for the factory, [load_] returns with the module installed in
    the loader and in the channel, all four steps started in order, and
    everything that was sent posted to the module, once, in the order of the
    [send] calls, the buffer being empty at the end. *)
Theorem load_flushes_what_was_sent_meanwhile
    steps depth host schedule emscriptenApiModule m
    (first second : list (string * Value)) em :
  safeLoad host = Resolved () ->
  factoryFunction host = Some (Resolved emscriptenApiModule) ->
  GoogleSmartCardModule emscriptenApiModule = Some (Resolved m) ->
  EmscriptenModuleMessageChannel.quiet m ->
  whileLoadingSupportCode schedule = sendTasks first ->
  whileRunningFactory schedule = sendTasks second ->
  Forall (fun s => isObject s.2 = true) first ->
  Forall (fun s => isObject s.2 = true) second ->
  EmscriptenModuleMessageChannel.googleSmartCardModule_
    (EmscriptenModuleMessageChannel.chan (messageChannel em)) = None ->
  EmscriptenModuleMessageChannel.isDisposed (messageChannel em) = false ->
  EmscriptenModuleMessageChannel.pendingOutgoingMessages_
    (EmscriptenModuleMessageChannel.chan (messageChannel em)) = [] ->
  length first + length second < steps ->
  load_ steps depth host schedule em
  = Returned
      (mk (disposed_ em) (Some m)
          (EmscriptenModuleMessageChannel.mkWorld
             (EmscriptenModuleMessageChannel.clearPending
                (EmscriptenModuleMessageChannel.setModule m
                   (EmscriptenModuleMessageChannel.chan (messageChannel em))))
             (EmscriptenModuleMessageChannel.posted (messageChannel em)
              ++ EmscriptenModuleMessageChannel.envelopes (first ++ second))
             (EmscriptenModuleMessageChannel.delivered (messageChannel em)))
          (started em ++ loadSequence)).
Proof.
  intros Hsafe Hfactory Hclass Hquiet Hfirst Hsecond Hobj1 Hobj2
         Hnone Hdisp Hbuf Hsteps.
  unfold load_. rewrite Hfirst, Hsecond.
  rewrite runTasks_sends by auto. cbn [bind]. rewrite Hsafe, Hfactory.
  rewrite runTasks_sends by auto. cbn [bind]. rewrite Hclass.
  cbv zeta.
  rewrite EmscriptenModuleMessageChannelFacts.onModuleCreated_ignores_disposed;
    [| exact Hquiet
     | simpl; rewrite Hbuf; simpl;
       unfold EmscriptenModuleMessageChannel.envelopes;
       rewrite length_app, !length_map; lia].
  unfold withChannel, start. simpl. rewrite Hbuf. simpl.
  unfold EmscriptenModuleMessageChannel.envelopes, loadSequence.
  rewrite map_app, <- !app_assoc. reflexivity.
Qed.

Lemma load_flushes_what_was_sent_meanwhile_witness :
  EmscriptenModuleMessageChannel.quiet EmscriptenModuleMessageChannel.silentModule
  /\ Forall (fun s : string * Value => isObject s.2 = true)
            [("ping", EmscriptenModuleMessageChannel.emptyObject);
             ("pong", EmscriptenModuleMessageChannel.emptyObject)]
  /\ Forall (fun s : string * Value => isObject s.2 = true)
            [("late", EmscriptenModuleMessageChannel.emptyObject)]
  /\ 2 + 1 < 4
  /\ EmscriptenModuleMessageChannel.posted
       (messageChannel
          (stateOf (load_ 4 0 workingPage sendingMeanwhile constructor)))
     = EmscriptenModuleMessageChannel.envelopes
         [("ping", EmscriptenModuleMessageChannel.emptyObject);
          ("pong", EmscriptenModuleMessageChannel.emptyObject);
          ("late", EmscriptenModuleMessageChannel.emptyObject)].
Proof.
  assert (Forall (fun s : string * Value => isObject s.2 = true)
                 [("ping", EmscriptenModuleMessageChannel.emptyObject);
                  ("pong", EmscriptenModuleMessageChannel.emptyObject)])
    as H1 by (repeat constructor).
  assert (Forall (fun s : string * Value => isObject s.2 = true)
                 [("late", EmscriptenModuleMessageChannel.emptyObject)])
    as H2 by (repeat constructor).
  assert (2 + 1 < 4) as Hlt by lia.
  split; [exact EmscriptenModuleMessageChannelFacts.silentModule_quiet |].
  split; [exact H1 |]. split; [exact H2 |]. split; [exact Hlt |].
  exact (f_equal (fun o => EmscriptenModuleMessageChannel.posted
                             (messageChannel (stateOf o)))
           (load_flushes_what_was_sent_meanwhile
              4 0 workingPage sendingMeanwhile _
              EmscriptenModuleMessageChannel.silentModule _ _ constructor
              eq_refl eq_refl eq_refl
              EmscriptenModuleMessageChannelFacts.silentModule_quiet
              eq_refl eq_refl H1 H2 eq_refl eq_refl eq_refl Hlt)).
Defined.


(** ** A load that fails *)

(** While the channel has no module, the tasks return without having posted
    anything, started a step or installed a module. *)
Lemma runTasks_before_module depth tasks em :
  EmscriptenModuleMessageChannel.googleSmartCardModule_
    (EmscriptenModuleMessageChannel.chan (messageChannel em)) = None ->
  exists em',
    runTasks depth tasks em = Returned em'
    /\ EmscriptenModuleMessageChannel.googleSmartCardModule_
         (EmscriptenModuleMessageChannel.chan (messageChannel em')) = None
    /\ EmscriptenModuleMessageChannel.posted (messageChannel em')
       = EmscriptenModuleMessageChannel.posted (messageChannel em)
    /\ started em' = started em
    /\ (googleSmartCardModule_ em = None -> googleSmartCardModule_ em' = None).
Proof.
  intros Hnone.
  destruct (runTasks_without_module depth tasks em Hnone)
    as (em' & Hrun & Hnone' & Hposted).
  exists em'. split; [exact Hrun |]. split; [exact Hnone' |].
  split; [exact Hposted |].
  clear Hnone Hnone' Hposted. revert em em' Hrun.
  induction tasks as [| task tasks IH]; intros em em' Hrun; cbn [runTasks] in Hrun.
  - inversion Hrun. auto.
  - assert (started (stateOf (runTask depth task em)) = started em
            /\ (googleSmartCardModule_ em = None ->
                googleSmartCardModule_ (stateOf (runTask depth task em)) = None))
      as (Hs & Hm).
    { destruct task as [serviceName payload |]; cbn [runTask].
      - destruct (EmscriptenModuleMessageChannel.send _ _ _ _); auto.
      - cbn [stateOf]. unfold dispose. destruct (disposed_ em); auto. }
    destruct (runTask depth task em) as [em1 | e em1 | em1];
      cbn [bind stateOf] in *; try discriminate.
    destruct (IH em1 em' Hrun) as (Hs' & Hm').
    split; [congruence | auto].
Qed.

(** X8.  On a page on which one of the first three steps fails, a loader
    whose channel has no module yet throws at that step, whatever is sent or
    disposed while it waits: a check failure for a missing factory or class,
    the rejection otherwise; it has started the steps up to the failing one
    and no later one, so the channel is never wired; nothing was posted, and
    neither the loader nor the channel holds a module. *)
Theorem failed_load_stops_at_failing_step steps depth host schedule em :
  hostFails host = true ->
  EmscriptenModuleMessageChannel.googleSmartCardModule_
    (EmscriptenModuleMessageChannel.chan (messageChannel em)) = None ->
  googleSmartCardModule_ em = None ->
  exists em',
    load_ steps depth host schedule em = Threw (failureOf host) em'
    /\ started em' = started em ++ take (failedAt host) loadSequence
    /\ (WireChannel ∉ take (failedAt host) loadSequence)
    /\ googleSmartCardModule_ em' = None
    /\ EmscriptenModuleMessageChannel.googleSmartCardModule_
         (EmscriptenModuleMessageChannel.chan (messageChannel em')) = None
    /\ EmscriptenModuleMessageChannel.posted (messageChannel em')
       = EmscriptenModuleMessageChannel.posted (messageChannel em).
Proof.
  intros Hfails Hnone Hloader.
  assert (forall k, k <= 3 -> WireChannel ∉ take k loadSequence) as Hwire.
  { intros k Hk Hin. destruct k as [| [| [| [| k]]]]; try lia;
      simpl in Hin; repeat (apply elem_of_cons in Hin as [E | Hin];
                            [discriminate E |]);
      now apply elem_of_nil in Hin. }
  unfold hostFails in Hfails. unfold load_, failureOf, failedAt.
  destruct (runTasks_before_module depth (whileLoadingSupportCode schedule)
              (start LoadSupportCode em) Hnone)
    as (c1 & -> & Hnone1 & Hp1 & Hs1 & Hm1).
  cbn [bind]. simpl in Hp1, Hs1, Hm1. specialize (Hm1 Hloader).
  destruct (safeLoad host) as [[] |].
  2: { exists c1. repeat (split; [now auto |]). exact Hp1. }
  destruct (factoryFunction host) as [factory |].
  2: { exists c1. repeat (split; [now auto |]). exact Hp1. }
  destruct (runTasks_before_module depth (whileRunningFactory schedule)
              (start RunFactory c1) Hnone1)
    as (c2 & -> & Hnone2 & Hp2 & Hs2 & Hm2).
  cbn [bind]. simpl in Hp2, Hs2, Hm2. specialize (Hm2 Hm1).
  assert (started c2 = started em ++ take 2 loadSequence) as Hstarted2
      by (rewrite Hs2, Hs1, <- app_assoc; reflexivity).
  destruct factory as [api |].
  2: { exists c2. repeat (split; [now auto |]). congruence. }
  destruct (GoogleSmartCardModule api) as [[m |] |]; [discriminate | |].
  - exists (start ConstructModule c2).
    split; [reflexivity |].
    split; [simpl; rewrite Hstarted2, <- app_assoc; reflexivity |].
    repeat (split; [now auto |]). simpl. congruence.
  - exists c2. repeat (split; [now auto |]). congruence.
Qed.

Lemma failed_load_stops_at_failing_step_witness :
  hostFails pageWithoutClass = true
  /\ exists em',
       load_ 9 0 pageWithoutClass disposedMeanwhile constructor
       = Threw CheckFailure em'
       /\ started em' = [] ++ take 2 loadSequence
       /\ (WireChannel ∉ take 2 loadSequence)
       /\ googleSmartCardModule_ em' = None
       /\ EmscriptenModuleMessageChannel.googleSmartCardModule_
            (EmscriptenModuleMessageChannel.chan (messageChannel em')) = None
       /\ EmscriptenModuleMessageChannel.posted (messageChannel em') = [].
Proof.
  split; [reflexivity |].
  exact (failed_load_stops_at_failing_step 9 0 pageWithoutClass
           disposedMeanwhile constructor eq_refl eq_refl eq_refl).
Defined.


(** ** A load on a working page, whatever happens meanwhile *)

Lemma runTasks_bound depth tasks em :
  EmscriptenModuleMessageChannel.googleSmartCardModule_
    (EmscriptenModuleMessageChannel.chan (messageChannel em)) = None ->
  exists em',
    runTasks depth tasks em = Returned em'
    /\ EmscriptenModuleMessageChannel.googleSmartCardModule_
         (EmscriptenModuleMessageChannel.chan (messageChannel em')) = None
    /\ length (EmscriptenModuleMessageChannel.pendingOutgoingMessages_
                 (EmscriptenModuleMessageChannel.chan (messageChannel em')))
       <= length (EmscriptenModuleMessageChannel.pendingOutgoingMessages_
                    (EmscriptenModuleMessageChannel.chan (messageChannel em)))
          + length tasks
    /\ started em' = started em
    /\ (disposed_ em = true \/ TaskDispose ∈ tasks -> disposed_ em' = true).
Proof.
  revert em. induction tasks as [| task tasks IH]; intros em Hnone;
    cbn [runTasks].
  - exists em. split; [reflexivity |]. split; [exact Hnone |].
    split; [lia |]. split; [reflexivity |].
    intros [H | H]; [exact H | now apply elem_of_nil in H].
  - assert (exists em1,
               runTask depth task em = Returned em1
               /\ EmscriptenModuleMessageChannel.googleSmartCardModule_
                    (EmscriptenModuleMessageChannel.chan (messageChannel em1))
                  = None
               /\ length (EmscriptenModuleMessageChannel.pendingOutgoingMessages_
                            (EmscriptenModuleMessageChannel.chan
                               (messageChannel em1)))
                  <= S (length (EmscriptenModuleMessageChannel.pendingOutgoingMessages_
                                  (EmscriptenModuleMessageChannel.chan
                                     (messageChannel em))))
               /\ started em1 = started em
               /\ (disposed_ em = true \/ task = TaskDispose ->
                   disposed_ em1 = true))
      as (em1 & -> & Hnone1 & Hlen1 & Hs1 & Hd1).
    { destruct task as [serviceName payload |]; cbn [runTask].
      - assert (forall w,
                   EmscriptenModuleMessageChannel.googleSmartCardModule_
                     (EmscriptenModuleMessageChannel.chan w) = None ->
                   length (EmscriptenModuleMessageChannel.pendingOutgoingMessages_
                             (EmscriptenModuleMessageChannel.chan w))
                   <= S (length
                           (EmscriptenModuleMessageChannel.pendingOutgoingMessages_
                              (EmscriptenModuleMessageChannel.chan
                                 (messageChannel em)))) ->
                   exists em1,
                     Returned (withChannel w em) = Returned em1
                     /\ EmscriptenModuleMessageChannel.googleSmartCardModule_
                          (EmscriptenModuleMessageChannel.chan
                             (messageChannel em1)) = None
                     /\ length
                          (EmscriptenModuleMessageChannel.pendingOutgoingMessages_
                             (EmscriptenModuleMessageChannel.chan
                                (messageChannel em1)))
                        <= S (length
                                (EmscriptenModuleMessageChannel.pendingOutgoingMessages_
                                   (EmscriptenModuleMessageChannel.chan
                                      (messageChannel em))))
                     /\ started em1 = started em
                     /\ (disposed_ em = true \/ TaskSend serviceName payload
                                                = TaskDispose ->
                         disposed_ em1 = true)) as Hwith.
        { intros w Hw Hl. eexists. split; [reflexivity |]. simpl.
          split; [exact Hw |]. split; [exact Hl |]. split; [reflexivity |].
          intros [H | H]; [exact H | discriminate H]. }
        destruct (isObject payload) eqn:Hobj;
          [| rewrite EmscriptenModuleMessageChannelFacts.send_non_object
               by auto; apply Hwith; auto].
        destruct (EmscriptenModuleMessageChannel.isDisposed (messageChannel em))
          eqn:Hdisp.
        + rewrite EmscriptenModuleMessageChannelFacts.send_disposed by auto.
          apply Hwith; auto.
        + rewrite EmscriptenModuleMessageChannelFacts.send_buffers by auto.
          apply Hwith; [exact Hnone |]. simpl. rewrite length_app. simpl. lia.
      - eexists. split; [reflexivity |]. unfold dispose.
        destruct (disposed_ em) eqn:Hd; simpl.
        + split; [exact Hnone |]. split; [lia |]. split; [reflexivity |].
          intros _. exact Hd.
        + rewrite EmscriptenModuleMessageChannelFacts.dispose_pending.
          split; [| split; [lia | split; [reflexivity | reflexivity]]].
          unfold EmscriptenModuleMessageChannel.dispose.
          now destruct (EmscriptenModuleMessageChannel.isDisposed _). }
    cbn [bind].
    destruct (IH em1 Hnone1) as (em' & Hrun & Hnone' & Hlen' & Hs' & Hd').
    exists em'. split; [exact Hrun |]. split; [exact Hnone' |].
    split; [simpl; lia |]. split; [congruence |].
    intros [H | H]; apply Hd'.
    + left. apply Hd1. now left.
    + apply elem_of_cons in H as [<- | H]; [| now right].
      left. apply Hd1. now right.
Qed.

(** X10.  On a page where every step works, with a module that never calls
    back, a loader whose channel has no module yet always completes its
    load, whatever is sent or disposed while it waits: all four steps are
    started, the module is installed in the loader and in the channel, and
    the buffer is empty.  [load_] does not look at the disposed flag: a
    loader that was disposed meanwhile is disposed at the end and holds
    the module all the same. *)
Theorem load_on_working_page_completes
    steps depth host schedule emscriptenApiModule m em :
  safeLoad host = Resolved () ->
  factoryFunction host = Some (Resolved emscriptenApiModule) ->
  GoogleSmartCardModule emscriptenApiModule = Some (Resolved m) ->
  EmscriptenModuleMessageChannel.quiet m ->
  EmscriptenModuleMessageChannel.googleSmartCardModule_
    (EmscriptenModuleMessageChannel.chan (messageChannel em)) = None ->
  length (EmscriptenModuleMessageChannel.pendingOutgoingMessages_
            (EmscriptenModuleMessageChannel.chan (messageChannel em)))
  + length (whileLoadingSupportCode schedule)
  + length (whileRunningFactory schedule) < steps ->
  exists em',
    load_ steps depth host schedule em = Returned em'
    /\ started em' = started em ++ loadSequence
    /\ googleSmartCardModule_ em' = Some m
    /\ EmscriptenModuleMessageChannel.googleSmartCardModule_
         (EmscriptenModuleMessageChannel.chan (messageChannel em')) = Some m
    /\ EmscriptenModuleMessageChannel.pendingOutgoingMessages_
         (EmscriptenModuleMessageChannel.chan (messageChannel em')) = []
    /\ (TaskDispose ∈ whileLoadingSupportCode schedule
                      ++ whileRunningFactory schedule ->
        disposed_ em' = true).
Proof.
  intros Hsafe Hfactory Hclass Hquiet Hnone Hsteps. unfold load_.
  destruct (runTasks_bound depth (whileLoadingSupportCode schedule)
              (start LoadSupportCode em) Hnone)
    as (c1 & -> & Hnone1 & Hlen1 & Hs1 & Hd1).
  cbn [bind]. rewrite Hsafe, Hfactory. simpl in Hlen1, Hs1.
  destruct (runTasks_bound depth (whileRunningFactory schedule)
              (start RunFactory c1) Hnone1)
    as (c2 & -> & Hnone2 & Hlen2 & Hs2 & Hd2).
  cbn [bind]. rewrite Hclass. simpl in Hlen2, Hs2, Hd2. cbv zeta.
  rewrite EmscriptenModuleMessageChannelFacts.onModuleCreated_ignores_disposed;
    [| exact Hquiet | simpl; lia].
  eexists. split; [reflexivity |]. simpl.
  split; [rewrite Hs2, Hs1; unfold loadSequence; now rewrite <- !app_assoc |].
  split; [reflexivity |]. split; [reflexivity |]. split; [reflexivity |].
  intros Hin. apply elem_of_app in Hin as [Hin | Hin].
  - apply Hd2. left. apply Hd1. now right.
  - apply Hd2. now right.
Qed.

Lemma load_on_working_page_completes_witness :
  EmscriptenModuleMessageChannel.quiet EmscriptenModuleMessageChannel.silentModule
  /\ 0 + 2 + 1 < 9
  /\ exists em',
       load_ 9 0 workingPage disposedMeanwhile constructor = Returned em'
       /\ started em' = [] ++ loadSequence
       /\ googleSmartCardModule_ em'
          = Some EmscriptenModuleMessageChannel.silentModule
       /\ EmscriptenModuleMessageChannel.googleSmartCardModule_
            (EmscriptenModuleMessageChannel.chan (messageChannel em'))
          = Some EmscriptenModuleMessageChannel.silentModule
       /\ EmscriptenModuleMessageChannel.pendingOutgoingMessages_
            (EmscriptenModuleMessageChannel.chan (messageChannel em')) = []
       /\ (TaskDispose ∈ whileLoadingSupportCode disposedMeanwhile
                         ++ whileRunningFactory disposedMeanwhile ->
           disposed_ em' = true).
Proof.
  assert (0 + 2 + 1 < 9) as Hlt by lia.
  split; [exact EmscriptenModuleMessageChannelFacts.silentModule_quiet |].
  split; [exact Hlt |].
  exact (load_on_working_page_completes
           9 0 workingPage disposedMeanwhile _
           EmscriptenModuleMessageChannel.silentModule constructor
           eq_refl eq_refl eq_refl
           EmscriptenModuleMessageChannelFacts.silentModule_quiet
           eq_refl Hlt).
Defined.


End EmscriptenModuleFacts.

(** * Properties of the sockets queue *)

Module PcscLiteServerSocketsManagerFacts.

Import PcscLiteServerSocketsManager.

(** ** One thread inside [WaitAndPop] *)

Lemma attempt_shut_down th sys :
  shutting_down_ (manager sys) = true ->
  attempt th sys
  = mkSystem (manager sys) (blocked sys) (woken sys) (returns sys ++ [(th, None)]).
Proof. intros Hdown. unfold attempt, WaitAndPop. now rewrite Hdown. Qed.

Lemma attempt_empty th sys :
  shutting_down_ (manager sys) = false ->
  server_socket_file_descriptors_queue_ (manager sys) = [] ->
  attempt th sys
  = mkSystem (manager sys) (blocked sys ++ [th]) (woken sys) (returns sys).
Proof. intros Hup Hq. unfold attempt, WaitAndPop. now rewrite Hup, Hq. Qed.

Lemma attempt_pop th sys fd rest :
  shutting_down_ (manager sys) = false ->
  server_socket_file_descriptors_queue_ (manager sys) = fd :: rest ->
  attempt th sys
  = mkSystem (mk false rest) (blocked sys) (woken sys)
             (returns sys ++ [(th, Some fd)]).
Proof. intros Hup Hq. unfold attempt, WaitAndPop. now rewrite Hup, Hq. Qed.

(** ** After [ShutDown] *)

(** Once the flag is set, an event leaves it set and the queue as long as it
    was or longer, and every value it makes a call return is the null
    optional. *)
Lemma step_shut_down ev sys :
  shutting_down_ (manager sys) = true ->
  shutting_down_ (manager (step ev sys)) = true
  /\ exists rs, returns (step ev sys) = returns sys ++ rs
                /\ Forall (fun r => r.2 = None) rs.
Proof.
  intros Hdown.
  assert (forall th sys0,
            shutting_down_ (manager sys0) = true ->
            returns sys0 = returns sys ->
            shutting_down_ (manager (attempt th sys0)) = true
            /\ exists rs, returns (attempt th sys0) = returns sys ++ rs
                          /\ Forall (fun r => r.2 = None) rs) as Hattempt.
  { intros th sys0 Hd Hr. rewrite attempt_shut_down by exact Hd. simpl.
    split; [exact Hd |]. exists [(th, None)]. rewrite Hr. split; [reflexivity |].
    now repeat constructor. }
  assert (forall sys0,
            shutting_down_ (manager sys0) = true ->
            returns sys0 = returns sys ->
            shutting_down_ (manager sys0) = true
            /\ exists rs, returns sys0 = returns sys ++ rs
                          /\ Forall (fun r => r.2 = None) rs) as Hsame.
  { intros sys0 Hd Hr. split; [exact Hd |]. exists []. rewrite Hr, app_nil_r.
    now split. }
  destruct ev as [fd | | th | th | th]; cbn [step].
  - apply Hsame; destruct (blocked sys); simpl; auto.
  - now apply Hsame.
  - destruct (inside th sys); [now apply Hsame | now apply Hattempt].
  - destruct (bool_decide (th ∈ woken sys)); [now apply Hattempt | now apply Hsame].
  - destruct (bool_decide (th ∈ blocked sys)); now apply Hsame.
Qed.

Lemma run_shut_down evs sys :
  shutting_down_ (manager sys) = true ->
  shutting_down_ (manager (run evs sys)) = true
  /\ exists rs, returns (run evs sys) = returns sys ++ rs
                /\ Forall (fun r => r.2 = None) rs.
Proof.
  revert sys. induction evs as [| ev evs IH]; intros sys Hdown; simpl.
  - split; [exact Hdown |]. exists []. now rewrite app_nil_r.
  - destruct (step_shut_down ev sys Hdown) as (Hdown' & rs & Hrs & Hnone).
    destruct (IH _ Hdown') as (Hdown'' & rs' & Hrs' & Hnone').
    split; [exact Hdown'' |]. exists (rs ++ rs').
    rewrite Hrs', Hrs, <- app_assoc. split; [reflexivity |].
    now apply Forall_app.
Qed.

(** C4.  [ShutDown] sets the flag, leaves the queue as it is and wakes every
    thread that waits in [WaitAndPop].  From then on, whatever happens, every
    value a [WaitAndPop] call returns is the null optional; the flag stays
    set; a waiting thread that gets the mutex back returns the null optional,
    and so does a thread that calls [WaitAndPop] anew, whatever the queue
    holds, because the flag is looked at before the queue. *)
Theorem shut_down_empties_every_WaitAndPop sys evs :
  shutting_down_ (manager (step EvShutDown sys)) = true
  /\ server_socket_file_descriptors_queue_ (manager (step EvShutDown sys))
     = server_socket_file_descriptors_queue_ (manager sys)
  /\ blocked (step EvShutDown sys) = []
  /\ woken (step EvShutDown sys) = woken sys ++ blocked sys
  /\ shutting_down_ (manager (run (EvShutDown :: evs) sys)) = true
  /\ (exists rs, returns (run (EvShutDown :: evs) sys) = returns sys ++ rs
                 /\ Forall (fun r => r.2 = None) rs)
  /\ (forall s, shutting_down_ s = true -> WaitAndPop s = Returns None s)
  /\ (forall th after,
        shutting_down_ (manager after) = true ->
        th ∈ woken after ->
        step (EvResume th) after
        = mkSystem (manager after) (blocked after) (remove th (woken after))
                   (returns after ++ [(th, None)]))
  /\ (forall th after,
        shutting_down_ (manager after) = true ->
        inside th after = false ->
        step (EvWaitAndPop th) after
        = mkSystem (manager after) (blocked after) (woken after)
                   (returns after ++ [(th, None)])).
Proof.
  assert (shutting_down_ (manager (step EvShutDown sys)) = true) as Hdown
      by reflexivity.
  destruct (run_shut_down evs (step EvShutDown sys) Hdown) as (Hstay & Hrs).
  repeat (split; [first [reflexivity | exact Hstay | exact Hrs] |]).
  split; [| split].
  - intros s Hs. unfold WaitAndPop. now rewrite Hs.
  - intros th after Hafter Hin. cbn [step].
    rewrite bool_decide_eq_true_2 by exact Hin.
    now rewrite attempt_shut_down by exact Hafter.
  - intros th after Hafter Hout. cbn [step]. rewrite Hout.
    now rewrite attempt_shut_down by exact Hafter.
Qed.

Lemma shut_down_empties_every_WaitAndPop_witness :
  shutting_down_ (manager (run [EvWaitAndPop 1; EvPush 5; EvPush 7; EvShutDown]
                               initial)) = true
  /\ 1 ∈ woken (run [EvWaitAndPop 1; EvPush 5; EvPush 7; EvShutDown] initial)
  /\ inside 2 (run [EvWaitAndPop 1; EvPush 5; EvPush 7; EvShutDown] initial) = false
  /\ returns (step (EvResume 1)
                (run [EvWaitAndPop 1; EvPush 5; EvPush 7; EvShutDown] initial))
     = [(1, None)]
  /\ returns (step (EvWaitAndPop 2)
                (run [EvWaitAndPop 1; EvPush 5; EvPush 7; EvShutDown] initial))
     = [(2, None)]
  /\ server_socket_file_descriptors_queue_
       (manager (run [EvWaitAndPop 1; EvPush 5; EvPush 7; EvShutDown] initial))
     = [5; 7]%Z.
Proof.
  assert (1 ∈ woken (run [EvWaitAndPop 1; EvPush 5; EvPush 7; EvShutDown] initial))
    as Hin by (vm_compute; apply list_elem_of_here).
  split; [reflexivity |]. split; [exact Hin |]. split; [reflexivity |].
  split; [| split; [| reflexivity]].
  - exact (f_equal returns
             (proj1 (proj2 (proj2 (proj2 (proj2 (proj2 (proj2 (proj2
                (shut_down_empties_every_WaitAndPop initial []))))))))
                1 (run [EvWaitAndPop 1; EvPush 5; EvPush 7; EvShutDown] initial)
                eq_refl Hin)).
  - exact (f_equal returns
             (proj2 (proj2 (proj2 (proj2 (proj2 (proj2 (proj2 (proj2
                (shut_down_empties_every_WaitAndPop initial []))))))))
                2 (run [EvWaitAndPop 1; EvPush 5; EvPush 7; EvShutDown] initial)
                eq_refl eq_refl)).
Defined.

(** ** First in, first out *)

(** What one event other than [ShutDown] does while the flag is not set: it
    pushes, or it changes neither queue nor returns, or it pops the head for
    the thread of the event. *)
Lemma step_cases ev sys :
  shutting_down_ (manager sys) = false ->
  isShutDown ev = false ->
  shutting_down_ (manager (step ev sys)) = false
  /\ ((exists fd,
         ev = EvPush fd
         /\ server_socket_file_descriptors_queue_ (manager (step ev sys))
            = server_socket_file_descriptors_queue_ (manager sys) ++ [fd]
         /\ returns (step ev sys) = returns sys)
      \/ (pushed [ev] = []
          /\ manager (step ev sys) = manager sys
          /\ returns (step ev sys) = returns sys)
      \/ (exists th fd,
            pushed [ev] = []
            /\ consumerOf ev = Some th
            /\ server_socket_file_descriptors_queue_ (manager sys)
               = fd :: server_socket_file_descriptors_queue_ (manager (step ev sys))
            /\ returns (step ev sys) = returns sys ++ [(th, Some fd)])).
Proof.
  intros Hup Hev.
  assert (forall th sys0 ev0,
            manager sys0 = manager sys ->
            returns sys0 = returns sys ->
            pushed [ev0] = [] ->
            consumerOf ev0 = Some th ->
            shutting_down_ (manager (attempt th sys0)) = false
            /\ ((exists fd,
                   ev0 = EvPush fd
                   /\ server_socket_file_descriptors_queue_ (manager (attempt th sys0))
                      = server_socket_file_descriptors_queue_ (manager sys) ++ [fd]
                   /\ returns (attempt th sys0) = returns sys)
                \/ (pushed [ev0] = []
                    /\ manager (attempt th sys0) = manager sys
                    /\ returns (attempt th sys0) = returns sys)
                \/ (exists th' fd,
                      pushed [ev0] = []
                      /\ consumerOf ev0 = Some th'
                      /\ server_socket_file_descriptors_queue_ (manager sys)
                         = fd :: server_socket_file_descriptors_queue_
                                   (manager (attempt th sys0))
                      /\ returns (attempt th sys0) = returns sys ++ [(th', Some fd)])))
    as Hattempt.
  { intros th sys0 ev0 Hm Hr Hp Hc.
    destruct (server_socket_file_descriptors_queue_ (manager sys)) as [| fd rest]
      eqn:Hq.
    - rewrite attempt_empty by (rewrite Hm; auto). simpl. rewrite Hm.
      split; [exact Hup |]. right; left. auto.
    - rewrite (attempt_pop th sys0 fd rest) by (rewrite Hm; auto). simpl.
      split; [reflexivity |]. right; right. exists th, fd. rewrite Hr. auto. }
  destruct ev as [fd | | th | th | th]; try discriminate; cbn [step].
  - split; [destruct (blocked sys); exact Hup |].
    left. exists fd. destruct (blocked sys); auto.
  - destruct (inside th sys); [| now apply Hattempt].
    split; [exact Hup |]. right; left. auto.
  - destruct (bool_decide (th ∈ woken sys)); [now apply Hattempt |].
    split; [exact Hup |]. right; left. auto.
  - split; [now destruct (bool_decide (th ∈ blocked sys)) |].
    right; left. destruct (bool_decide (th ∈ blocked sys)); auto.
Qed.

(** Without [ShutDown], the descriptors returned, in the order of the
    returns, followed by those still queued, are the descriptors that were
    queued at the start followed by those pushed, in the order of the pushes;
    and each return goes to the thread of the event that made it. *)
Lemma run_fifo evs :
  Forall (fun ev => isShutDown ev = false) evs ->
  forall sys,
    shutting_down_ (manager sys) = false ->
    exists popped : list (Thread * Z),
      returns (run evs sys)
      = returns sys ++ map (fun r => (r.1, Some r.2)) popped
      /\ server_socket_file_descriptors_queue_ (manager sys) ++ pushed evs
         = map snd popped
           ++ server_socket_file_descriptors_queue_ (manager (run evs sys))
      /\ Forall (fun r => exists ev, ev ∈ evs /\ consumerOf ev = Some r.1) popped.
Proof.
  induction 1 as [| ev evs Hev _ IH]; intros sys Hup; cbn [run].
  - exists []. simpl. now rewrite !app_nil_r.
  - destruct (step_cases ev sys Hup Hev) as (Hup' & Hcase).
    destruct (IH _ Hup') as (popped & Hret & Hqueue & Hthreads).
    assert (Forall (fun r : Thread * Z =>
                      exists ev0, ev0 ∈ ev :: evs /\ consumerOf ev0 = Some r.1)
                   popped) as Hthreads'.
    { eapply Forall_impl; [exact Hthreads |]. intros r (ev0 & Hin & Hc).
      exists ev0. split; [now apply list_elem_of_further | exact Hc]. }
    destruct Hcase as [(fd & -> & Hq & Hr) | [(Hp & Hm & Hr) | (th & fd & Hp & Hc & Hq & Hr)]].
    + exists popped. rewrite Hret, Hr. split; [reflexivity |].
      split; [| exact Hthreads']. cbn [pushed]. rewrite <- Hqueue, Hq.
      now rewrite <- app_assoc.
    + exists popped. rewrite Hret, Hr. split; [reflexivity |].
      split; [| exact Hthreads']. rewrite <- Hqueue, Hm.
      destruct ev; try discriminate; reflexivity.
    + exists ((th, fd) :: popped). rewrite Hret, Hr. cbn [map fst snd].
      split; [now rewrite <- app_assoc |]. split.
      * rewrite Hq. cbn [app]. rewrite <- Hqueue.
        destruct ev; try discriminate; reflexivity.
      * constructor; [| exact Hthreads']. exists ev. split; [left | exact Hc].
Qed.

(** C7.  In every schedule of pushes and of [WaitAndPop] calls of a single
    consumer, without [ShutDown], on a new queue: every call that has
    returned has returned a descriptor, and the descriptors the consumer has
    got, in the order it got them, followed by those still queued, are the
    pushed descriptors in the order of the pushes.  After [Push(5)] and
    [Push(7)], two calls return 5 and then 7. *)
Theorem single_consumer_sees_push_order evs consumer :
  Forall (fun ev => isShutDown ev = false) evs ->
  Forall (fun ev => consumerOf ev = None \/ consumerOf ev = Some consumer) evs ->
  (exists seen : list Z,
      observedBy consumer (run evs initial) = map Some seen
      /\ length (returns (run evs initial)) = length seen
      /\ pushed evs
         = seen ++ server_socket_file_descriptors_queue_
                     (manager (run evs initial)))
  /\ observedBy consumer
       (run [EvPush 5; EvPush 7; EvWaitAndPop consumer; EvWaitAndPop consumer]
            initial)
     = [Some 5%Z; Some 7%Z].
Proof.
  intros Hup Hone. split.
  - destruct (run_fifo evs Hup initial eq_refl) as (popped & Hret & Hqueue & Hth).
    simpl in Hret, Hqueue.
    assert (Forall (fun r : Thread * Z => r.1 = consumer) popped) as Hmine.
    { eapply Forall_impl; [exact Hth |]. intros r (ev & Hin & Hc).
      rewrite Forall_forall in Hone. destruct (Hone ev Hin) as [E | E];
        rewrite E in Hc; [discriminate | now inversion Hc]. }
    exists (map snd popped). unfold observedBy. rewrite Hret.
    split; [| split; [now rewrite !length_map | exact Hqueue]].
    clear -Hmine. induction Hmine as [| [th fd] popped Hr _ IH]; [reflexivity |].
    simpl in *. rewrite filter_cons. simpl. rewrite decide_True by exact Hr.
    simpl. now rewrite IH.
  - unfold observedBy. simpl. unfold inside. simpl.
    rewrite !filter_cons, filter_nil. simpl.
    now rewrite !decide_True by reflexivity.
Qed.

Lemma single_consumer_sees_push_order_witness :
  Forall (fun ev => isShutDown ev = false)
         [EvWaitAndPop 1; EvPush 5; EvResume 1; EvPush 7; EvPush 9; EvWaitAndPop 1]
  /\ Forall (fun ev => consumerOf ev = None \/ consumerOf ev = Some 1)
            [EvWaitAndPop 1; EvPush 5; EvResume 1; EvPush 7; EvPush 9; EvWaitAndPop 1]
  /\ exists seen : list Z,
       observedBy 1
         (run [EvWaitAndPop 1; EvPush 5; EvResume 1; EvPush 7; EvPush 9;
               EvWaitAndPop 1] initial)
       = map Some seen
       /\ length (returns
            (run [EvWaitAndPop 1; EvPush 5; EvResume 1; EvPush 7; EvPush 9;
                  EvWaitAndPop 1] initial))
          = length seen
       /\ [5; 7; 9]%Z
          = seen ++ server_socket_file_descriptors_queue_
                      (manager
                         (run [EvWaitAndPop 1; EvPush 5; EvResume 1; EvPush 7;
                               EvPush 9; EvWaitAndPop 1] initial)).
Proof.
  assert (Forall (fun ev => isShutDown ev = false)
                 [EvWaitAndPop 1; EvPush 5; EvResume 1; EvPush 7; EvPush 9;
                  EvWaitAndPop 1]) as Hup by (repeat constructor).
  assert (Forall (fun ev => consumerOf ev = None \/ consumerOf ev = Some 1)
                 [EvWaitAndPop 1; EvPush 5; EvResume 1; EvPush 7; EvPush 9;
                  EvWaitAndPop 1]) as Hone
      by (repeat constructor; simpl; auto).
  split; [exact Hup |]. split; [exact Hone |].
  exact (proj1 (single_consumer_sees_push_order
                  [EvWaitAndPop 1; EvPush 5; EvResume 1; EvPush 7; EvPush 9;
                   EvWaitAndPop 1] 1 Hup Hone)).
Defined.


(** ** Scenarios *)

(** [WaitAndPop] on an empty queue blocks; [ShutDown] wakes the caller, which
    returns the null optional. *)
Example scenario_shut_down_unblocks :
  blocked (run [EvWaitAndPop 1] initial) = [1]
  /\ returns (run [EvWaitAndPop 1] initial) = []
  /\ woken (run [EvWaitAndPop 1; EvShutDown] initial) = [1]
  /\ returns (run [EvWaitAndPop 1; EvShutDown; EvResume 1] initial)
     = [(1, None)].
Proof. repeat split. Qed.

(** Two consumers: each pushed descriptor is returned once, to one of
    them. *)
Example scenario_two_consumers :
  returns (run [EvWaitAndPop 1; EvWaitAndPop 2; EvPush 5; EvPush 7;
                EvResume 2; EvResume 1] initial)
  = [(2, Some 5%Z); (1, Some 7%Z)].
Proof. reflexivity. Qed.

(** * Further properties of the sockets queue *)

(** ** Several consumers *)

Lemma observedBy_popped th (popped : list (Thread * Z)) :
  map snd (filter (λ r : Thread * option Z, r.1 = th)
                  (map (fun r : Thread * Z => (r.1, Some r.2)) popped))
  = map Some (map snd (filter (λ r : Thread * Z, r.1 = th) popped)).
Proof.
  induction popped as [| [th' fd] popped IH]; [reflexivity |].
  cbn [map]. rewrite !filter_cons. cbn [fst snd].
  destruct (decide (th' = th)); cbn [map snd]; now rewrite IH.
Qed.

(** With any number of consumers and no [ShutDown], on a new queue:
    every call that has returned has returned a descriptor; the descriptors
    returned, in the order of the returns, followed by those still queued,
    are the pushed descriptors in the order of the pushes, so each pushed
    descriptor went to one call or is still queued; and what one consumer has
    got is a subsequence of the pushes, in push order. *)
Theorem every_descriptor_returned_once evs :
  Forall (fun ev => isShutDown ev = false) evs ->
  exists popped : list (Thread * Z),
    returns (run evs initial) = map (fun r => (r.1, Some r.2)) popped
    /\ pushed evs
       = map snd popped
         ++ server_socket_file_descriptors_queue_ (manager (run evs initial))
    /\ forall th,
         observedBy th (run evs initial)
         = map Some (map snd (filter (λ r, r.1 = th) popped))
         /\ map snd (filter (λ r, r.1 = th) popped) `sublist_of` pushed evs.
Proof.
  intros Hup.
  destruct (run_fifo evs Hup initial eq_refl) as (popped & Hret & Hqueue & _).
  simpl in Hret, Hqueue.
  exists popped. split; [exact Hret |]. split; [exact Hqueue |].
  intros th. split.
  - unfold observedBy. rewrite Hret. apply observedBy_popped.
  - rewrite Hqueue. apply sublist_inserts_r.
    apply (fmap_sublist snd). apply sublist_filter.
Qed.

Lemma every_descriptor_returned_once_witness :
  Forall (fun ev => isShutDown ev = false)
         [EvWaitAndPop 1; EvWaitAndPop 2; EvPush 5; EvPush 7; EvPush 9;
          EvResume 2; EvResume 1]
  /\ exists popped : list (Thread * Z),
       returns (run [EvWaitAndPop 1; EvWaitAndPop 2; EvPush 5; EvPush 7;
                     EvPush 9; EvResume 2; EvResume 1] initial)
       = map (fun r => (r.1, Some r.2)) popped
       /\ [5; 7; 9]%Z
          = map snd popped
            ++ server_socket_file_descriptors_queue_
                 (manager (run [EvWaitAndPop 1; EvWaitAndPop 2; EvPush 5;
                                EvPush 7; EvPush 9; EvResume 2; EvResume 1]
                               initial))
       /\ forall th,
            observedBy th
              (run [EvWaitAndPop 1; EvWaitAndPop 2; EvPush 5; EvPush 7;
                    EvPush 9; EvResume 2; EvResume 1] initial)
            = map Some (map snd (filter (λ r, r.1 = th) popped))
            /\ map snd (filter (λ r, r.1 = th) popped)
               `sublist_of` [5; 7; 9]%Z.
Proof.
  assert (Forall (fun ev => isShutDown ev = false)
                 [EvWaitAndPop 1; EvWaitAndPop 2; EvPush 5; EvPush 7; EvPush 9;
                  EvResume 2; EvResume 1]) as Hup by (repeat constructor).
  split; [exact Hup |].
  exact (every_descriptor_returned_once
           [EvWaitAndPop 1; EvWaitAndPop 2; EvPush 5; EvPush 7; EvPush 9;
            EvResume 2; EvResume 1] Hup).
Defined.

(** ** No wake-up is lost *)

Lemma remove_absent th (ths : list Thread) : th ∉ ths -> remove th ths = ths.
Proof.
  unfold remove. induction ths as [| x ths IH]; intros Hout; [reflexivity |].
  apply not_elem_of_cons in Hout as [Hne Hout].
  rewrite filter_cons, decide_True by congruence. now rewrite IH.
Qed.

Lemma remove_length th (ths : list Thread) :
  NoDup ths -> th ∈ ths -> S (length (remove th ths)) = length ths.
Proof.
  unfold remove. induction 1 as [| x ths Hx Hnodup IH]; intros Hin.
  - now apply elem_of_nil in Hin.
  - rewrite filter_cons. destruct (decide (x ≠ th)) as [Hne | Heq].
    + apply elem_of_cons in Hin as [-> | Hin]; [congruence |].
      simpl. now rewrite IH.
    + assert (x = th) as -> by (destruct (decide (x = th)); tauto).
      fold (remove th ths). now rewrite remove_absent.
Qed.

(** What every event keeps: no thread waits twice, nobody waits once the
    queue is shut down, and while some thread still sleeps there are at
    least as many notified threads as queued descriptors. *)
Lemma step_keeps_wake_ups ev sys :
  NoDup (blocked sys ++ woken sys) ->
  (shutting_down_ (manager sys) = true -> blocked sys = []) ->
  (blocked sys <> [] ->
   length (server_socket_file_descriptors_queue_ (manager sys))
   <= length (woken sys)) ->
  NoDup (blocked (step ev sys) ++ woken (step ev sys))
  /\ (shutting_down_ (manager (step ev sys)) = true ->
      blocked (step ev sys) = [])
  /\ (blocked (step ev sys) <> [] ->
      length (server_socket_file_descriptors_queue_ (manager (step ev sys)))
      <= length (woken (step ev sys))).
Proof.
  intros Hnodup Hdown Hcount.
  assert (forall th sys0,
             manager sys0 = manager sys ->
             blocked sys0 = blocked sys ->
             th ∉ blocked sys0 ++ woken sys0 ->
             NoDup (blocked sys0 ++ woken sys0) ->
             (blocked sys <> [] ->
              length (server_socket_file_descriptors_queue_ (manager sys))
              <= S (length (woken sys0))) ->
             NoDup (blocked (attempt th sys0) ++ woken (attempt th sys0))
             /\ (shutting_down_ (manager (attempt th sys0)) = true ->
                 blocked (attempt th sys0) = [])
             /\ (blocked (attempt th sys0) <> [] ->
                 length (server_socket_file_descriptors_queue_
                           (manager (attempt th sys0)))
                 <= length (woken (attempt th sys0)))) as Hattempt.
  { intros th sys0 Hm Hb Hout Hnd Hc.
    destruct (shutting_down_ (manager sys)) eqn:Hflag.
    - rewrite attempt_shut_down by (rewrite Hm; exact Hflag). simpl.
      split; [exact Hnd |]. split; [intros _; rewrite Hb; now apply Hdown |].
      intros Hne. exfalso. apply Hne. rewrite Hb. now apply Hdown.
    - destruct (server_socket_file_descriptors_queue_ (manager sys))
        as [| fd rest] eqn:Hq.
      + rewrite attempt_empty by (rewrite Hm; auto). simpl.
        split; [| split; [rewrite Hm, Hflag; discriminate
                         | rewrite Hm, Hq; simpl; lia]].
        rewrite <- app_assoc.
        apply NoDup_app in Hnd as (Hnb & Hdisj & Hnw).
        apply not_elem_of_app in Hout as [Hob How].
        apply NoDup_app. split; [exact Hnb |]. split.
        * intros x Hx Hin. apply elem_of_app in Hin as [Hin | Hin].
          -- apply list_elem_of_singleton in Hin. now subst.
          -- now apply (Hdisj x).
        * apply NoDup_app. split; [apply NoDup_singleton |].
          split; [| exact Hnw].
          intros x Hx. apply list_elem_of_singleton in Hx. now subst.
      + rewrite (attempt_pop th sys0 fd rest) by (rewrite Hm; auto). simpl.
        split; [exact Hnd |]. split; [discriminate |].
        rewrite Hb. intros Hne. specialize (Hc Hne). simpl in Hc. lia. }
  destruct ev as [fd | | th | th | th]; cbn [step].
  - destruct (blocked sys) as [| th rest] eqn:Hb; simpl.
    + split; [exact Hnodup |]. split; [auto | congruence].
    + split; [| split].
      * rewrite <- Permutation_cons_append, <- Permutation_middle.
        exact Hnodup.
      * intros Hflag. specialize (Hdown Hflag). discriminate.
      * intros _. rewrite !length_app. simpl.
        assert (th :: rest <> []) as Hne by discriminate.
        specialize (Hcount Hne). lia.
  - simpl. split; [| split; [auto | congruence]].
    now rewrite Permutation_app_comm.
  - destruct (inside th sys) eqn:Hin; [auto |].
    apply Hattempt; auto;
      try (unfold inside in Hin; now apply bool_decide_eq_false_1 in Hin);
      try (intros Hne; specialize (Hcount Hne); lia).
  - destruct (bool_decide (th ∈ woken sys)) eqn:Hin; [| auto].
    apply bool_decide_eq_true_1 in Hin.
    apply NoDup_app in Hnodup as (Hnb & Hdisj & Hnw).
    apply Hattempt; simpl; auto.
    + intros Hx. apply elem_of_app in Hx as [Hx | Hx].
      * now apply (Hdisj th).
      * unfold remove in Hx. apply list_elem_of_filter in Hx as [Hne _].
        congruence.
    + apply NoDup_app. split; [exact Hnb |]. split.
      * intros x Hx Hr. unfold remove in Hr.
        apply list_elem_of_filter in Hr as [_ Hr]. now apply (Hdisj x).
      * now apply NoDup_filter.
    + intros Hne. specialize (Hcount Hne).
      rewrite (remove_length th (woken sys)) by auto. exact Hcount.
  - destruct (bool_decide (th ∈ blocked sys)) eqn:Hin; [| auto].
    apply bool_decide_eq_true_1 in Hin. simpl.
    apply NoDup_app in Hnodup as (Hnb & Hdisj & Hnw).
    split; [| split].
    + apply NoDup_app. split; [now apply NoDup_filter |]. split.
      * intros x Hx Hw. unfold remove in Hx.
        apply list_elem_of_filter in Hx as [Hne Hx].
        apply elem_of_app in Hw as [Hw | Hw].
        -- now apply (Hdisj x).
        -- apply list_elem_of_singleton in Hw. congruence.
      * apply NoDup_app. split; [exact Hnw |]. split; [| apply NoDup_singleton].
        intros x Hx Hs. apply list_elem_of_singleton in Hs. subst.
        now apply (Hdisj th).
    + intros Hflag. rewrite (Hdown Hflag). reflexivity.
    + intros _. rewrite length_app. simpl.
      assert (blocked sys <> []) as Hne
          by (intros E; rewrite E in Hin; now apply elem_of_nil in Hin).
      specialize (Hcount Hne). lia.
Qed.

(** In every schedule on a new queue: no thread is registered as
    waiting twice; once the queue is shut down no thread sleeps in
    [WaitAndPop]; and as long as some thread still sleeps there, at least as
    many threads have been woken as descriptors are queued, so a descriptor
    is never left in the queue while all its possible takers sleep. *)
Theorem no_wake_up_is_lost evs :
  NoDup (blocked (run evs initial) ++ woken (run evs initial))
  /\ (shutting_down_ (manager (run evs initial)) = true ->
      blocked (run evs initial) = [])
  /\ (blocked (run evs initial) <> [] ->
      length (server_socket_file_descriptors_queue_
                (manager (run evs initial)))
      <= length (woken (run evs initial)))
  /\ (blocked (run evs initial) <> [] ->
      woken (run evs initial) = [] ->
      server_socket_file_descriptors_queue_ (manager (run evs initial)) = []).
Proof.
  assert (forall sys,
             NoDup (blocked sys ++ woken sys) ->
             (shutting_down_ (manager sys) = true -> blocked sys = []) ->
             (blocked sys <> [] ->
              length (server_socket_file_descriptors_queue_ (manager sys))
              <= length (woken sys)) ->
             NoDup (blocked (run evs sys) ++ woken (run evs sys))
             /\ (shutting_down_ (manager (run evs sys)) = true ->
                 blocked (run evs sys) = [])
             /\ (blocked (run evs sys) <> [] ->
                 length (server_socket_file_descriptors_queue_
                           (manager (run evs sys)))
                 <= length (woken (run evs sys)))) as Hrun.
  { induction evs as [| ev evs IH]; intros sys H1 H2 H3; cbn [run]; [auto |].
    destruct (step_keeps_wake_ups ev sys H1 H2 H3) as (H1' & H2' & H3').
    now apply IH. }
  destruct (Hrun initial) as (H1 & H2 & H3).
  - simpl. apply NoDup_nil_2.
  - discriminate.
  - simpl. congruence.
  - split; [exact H1 |]. split; [exact H2 |]. split; [exact H3 |].
    intros Hne Hw. specialize (H3 Hne). rewrite Hw in H3. simpl in H3.
    destruct (server_socket_file_descriptors_queue_ (manager (run evs initial)));
      [reflexivity | simpl in H3; lia].
Qed.

Lemma no_wake_up_is_lost_witness :
  blocked (run [EvWaitAndPop 1; EvWaitAndPop 2; EvPush 5] initial) <> []
  /\ length (server_socket_file_descriptors_queue_
               (manager (run [EvWaitAndPop 1; EvWaitAndPop 2; EvPush 5]
                             initial)))
     <= length (woken (run [EvWaitAndPop 1; EvWaitAndPop 2; EvPush 5] initial)).
Proof.
  assert (blocked (run [EvWaitAndPop 1; EvWaitAndPop 2; EvPush 5] initial)
          <> []) as Hne by discriminate.
  split; [exact Hne |].
  exact (proj1 (proj2 (proj2
           (no_wake_up_is_lost [EvWaitAndPop 1; EvWaitAndPop 2; EvPush 5])))
           Hne).
Defined.


End PcscLiteServerSocketsManagerFacts.
